(** * Chunk storage engine of hub: identifiers, sample-compressed chunks,
      linked video samples and the merge of worker output.

    A shallow embedding of
      - [hub/util/chunks.py]                       (module [Chunks]),
      - [hub/core/chunk/sample_compressed_chunk.py] (module [SampleChunk]),
      - [hub/core/linked_chunk_engine.py]           (module [LinkedEngine]),
      - [hub/util/transform.py]                     (module [Transform]),
    with the properties of section 8 of the specification stated against it. *)

From Stdlib Require Import NArith ZArith String Ascii List Lia.
From Stdlib.Strings Require Import Byte.
From stdpp Require Import base option list strings gmap sorting.

Local Open Scope string_scope.
Local Open Scope list_scope.

(** ** Python results: a value or a raised exception *)

Inductive exn : Type :=
  | KeyError | IndexError | ValueError | TypeError
  | AttributeError | AssertionError.

Inductive res (A : Type) : Type :=
  | Ok (a : A)
  | Raise (e : exn).
Arguments Ok {A} a.
Arguments Raise {A} e.

Definition res_bind {A B} (r : res A) (k : A -> res B) : res B :=
  match r with
  | Ok a => k a
  | Raise e => Raise e
  end.

(** The bytes of a Python [bytes], [bytearray] or [memoryview]. *)
Abbreviation bytes := (list byte).

(* ================================================================== *)
(** ** hub/util/chunks.py *)
(* ================================================================== *)

Module Chunks.

Local Open Scope N_scope.

(** One lowercase hexadecimal digit, as Python's [hex] prints it. *)
Definition hex_digit (d : N) : ascii :=
  match d with
  | 0 => "0" | 1 => "1" | 2 => "2" | 3 => "3"
  | 4 => "4" | 5 => "5" | 6 => "6" | 7 => "7"
  | 8 => "8" | 9 => "9" | 10 => "a" | 11 => "b"
  | 12 => "c" | 13 => "d" | 14 => "e" | _ => "f"
  end%char.

(** The digits of [n], most significant first, in front of [acc]. *)
Fixpoint hex_digits (fuel : nat) (n : N) (acc : string) : string :=
  match fuel with
  | O => acc
  | S fuel' =>
      let acc' := String (hex_digit (n mod 16)) acc in
      if n / 16 =? 0 then acc' else hex_digits fuel' (n / 16) acc'
  end.

(** Python's builtin [hex] on a non-negative integer: ["0x"] and the
    digits without leading zeros ([hex(0) = "0x0"]). *)
Definition hex (n : N) : string :=
  String "0" (String "x" (hex_digits (S (N.to_nat (N.log2 n))) n EmptyString)).

(** The value of one hexadecimal digit; [int(_, 16)] takes both cases. *)
Definition hex_value (c : ascii) : option N :=
  let n := N_of_ascii c in
  if (48 <=? n) && (n <=? 57) then Some (n - 48)
  else if (97 <=? n) && (n <=? 102) then Some (n - 87)
  else if (65 <=? n) && (n <=? 70) then Some (n - 55)
  else None.

Fixpoint parse_hex (acc : N) (s : string) : option N :=
  match s with
  | EmptyString => Some acc
  | String c s' =>
      match hex_value c with
      | Some d => parse_hex (acc * 16 + d) s'
      | None => None
      end
  end.

(** Python's [int(s, 16)] on plain digit strings: an optional ["0x"] prefix,
    then at least one hexadecimal digit.  The other forms [int] accepts (a
    sign, surrounding blanks, underscores between digits) are not produced
    by [chunk_name_from_id] and are answered [ValueError] here. *)
Definition int16 (s : string) : res N :=
  let digits :=
    match s with
    | String "0" (String "x" rest) => rest
    | String "0" (String "X" rest) => rest
    | _ => s
    end in
  match digits with
  | EmptyString => Raise ValueError
  | _ => match parse_hex 0 digits with
         | Some n => Ok n
         | None => Raise ValueError
         end
  end.

(** Python's [s[2:]]. *)
Definition drop2 (s : string) : string :=
  match s with
  | String _ (String _ rest) => rest
  | _ => EmptyString
  end.

(** Modelled from the spec: [hub.constants] is not among the sources.  The
    identifier is "a randomly generated 128-bit unique value
    truncated/shifted to the target width"; [chunk_uuid_from_id] pads a name
    with 24 hexadecimal digits to rebuild a 32 digit UUID, which leaves 8
    digits, 32 bits, for the identifier and a shift of 96. *)
Definition UUID_SHIFT_AMOUNT : N := 96.

(** Modelled from the spec: the fixed-width unsigned cast ([numpy.uint32]). *)
Definition ENCODING_DTYPE (x : N) : N := x mod 2 ^ 32.

(** [uuid.UUID.int] of [uuid4()], from the 16 random bytes [r] it draws:
    the variant bits are set to RFC 4122 and the version nibble to 4. *)
Definition uuid4 (r : N) : N :=
  let i := r mod 2 ^ 128 in
  let i := N.ldiff i (N.shiftl 0xc000 48) in
  let i := N.lor i (N.shiftl 0x8000 48) in
  let i := N.ldiff i (N.shiftl 0xf000 64) in
  N.lor i (N.shiftl 4 76).

Definition _cast_to_encoding_dtype (uuid_int : N) : N :=
  ENCODING_DTYPE (N.shiftr uuid_int UUID_SHIFT_AMOUNT).

(** [random_chunk_id], with the random bytes drawn by [uuid4] as argument. *)
Definition random_chunk_id (r : N) : N :=
  _cast_to_encoding_dtype (uuid4 r).

Definition chunk_name_from_id (id : N) : string :=
  drop2 (hex id).

Definition chunk_id_from_name (name : string) : res N :=
  int16 (String "0" (String "x" name)).

(** ["0" * n] *)
Fixpoint zeros (n : nat) : string :=
  match n with
  | O => EmptyString
  | S n' => String "0" (zeros n')
  end.

(** [uuid.UUID(hex=h)]: the [urn:]/[uuid:] prefixes, braces and dashes it
    removes first cannot occur in a string of hexadecimal digits; then the
    length must be exactly 32. *)
Definition UUID_of_hex (h : string) : res N :=
  if Nat.eqb (String.length h) 32 then int16 h else Raise ValueError.

Definition chunk_uuid_from_id (id : N) : res N :=
  let chunk_name := chunk_name_from_id id in
  let padded_chunk_name := String.append chunk_name (zeros 24) in
  UUID_of_hex padded_chunk_name.

End Chunks.

(* ================================================================== *)
(** ** numpy arrays *)
(* ================================================================== *)

Inductive dtype : Type :=
  | uint8 | uint16 | uint32 | uint64
  | int8 | int32 | int64
  | float32 | float64.

Global Instance dtype_eq_dec : EqDecision dtype.
Proof. solve_decision. Defined.

Definition itemsize (d : dtype) : nat :=
  match d with
  | uint8 | int8 => 1
  | uint16 => 2
  | uint32 | int32 | float32 => 4
  | uint64 | int64 | float64 => 8
  end.

Abbreviation shape := (list nat).

(** An array is its dtype, its shape and its bytes in C order
    ([ndarray.tobytes()]). *)
Record ndarray : Type := mk_ndarray {
  arr_dtype : dtype;
  arr_shape : shape;
  arr_data : bytes
}.

Definition numel (sh : shape) : nat := fold_right Nat.mul 1 sh.

(** [np.frombuffer(buffer, dtype=dt)]: a flat array over the buffer;
    [ValueError] when the size is no multiple of the element size. *)
Definition frombuffer (buffer : bytes) (dt : dtype) : res ndarray :=
  if Nat.eqb (length buffer mod itemsize dt) 0
  then Ok (mk_ndarray dt [length buffer / itemsize dt] buffer)
  else Raise ValueError.

(** [a.reshape(shape)]: [ValueError] when the number of elements differs;
    a [None] shape is refused. *)
Definition np_reshape (a : ndarray) (sh : option shape) : res ndarray :=
  match sh with
  | None => Raise TypeError
  | Some sh =>
      if Nat.eqb (numel sh) (numel (arr_shape a))
      then Ok (mk_ndarray (arr_dtype a) sh (arr_data a))
      else Raise ValueError
  end.

(** [a.squeeze(0)]: a new array without its leading axis, which must have
    length one; the receiver is left as it is. *)
Definition squeeze0 (a : ndarray) : res ndarray :=
  match arr_shape a with
  | 1 :: rest => Ok (mk_ndarray (arr_dtype a) rest (arr_data a))
  | _ => Raise ValueError
  end.

(** [buf[sb:eb]] *)
Definition slice {A} (sb eb : nat) (l : list A) : list A :=
  take (eb - sb) (drop sb l).

(* ================================================================== *)
(** ** hub/core/chunk/sample_compressed_chunk.py *)
(* ================================================================== *)

Module SampleChunk.

(** Calls into the codec, in the order they are made. *)
Inductive codec_op : Type :=
  | Compress (c : string)
  | Decompress (c : string).

(** A computation that logs its codec calls. *)
Definition W (A : Type) : Type := A * list codec_op.

Definition ret {A} (a : A) : W A := (a, []).
Definition tell (op : codec_op) : W unit := (tt, [op]).
Definition bind {A B} (m : W A) (k : A -> W B) : W B :=
  let (b, t) := k (fst m) in (b, snd m ++ t).

Notation "'do' x <- m ; k" := (bind m (fun x => k))
  (at level 10, x name, m at level 100, k at level 200).
Notation "'do' ' p <- m ; k" := (bind m (fun x => let p := x in k))
  (at level 10, p pattern, m at level 100, k at level 200).
Notation "'log' op ; k" := (bind (tell op) (fun _ => k))
  (at level 10, op at level 100, k at level 200).

(** Modelled from the spec: [hub.core.sample.Sample] is not among the
    sources.  It wraps either an array ([Sample(array=arr)]) or bytes that
    are already encoded ([Sample(buffer=b, compression=c, shape=sh)]; a file
    read by [hub.read] is of this kind). *)
Inductive Sample : Type :=
  | SampleArray (array : ndarray)
  | SampleBuffer (buffer : bytes) (compression : string) (shp : option shape).

(** [SampleValue]: text, a [Sample], or an array or base type (a scalar is
    an array of rank 0). *)
Inductive SampleValue : Type :=
  | VText (s : string)
  | VSample (s : Sample)
  | VArray (a : ndarray).

(** The functions of [hub.core.compression], [hub.core.serialize] and
    [hub.util.casting] the chunk calls; they are not among the sources. *)
Class Collaborators : Type := {
  text_to_bytes : SampleValue -> dtype -> string -> bytes * option shape;
  bytes_to_text : bytes -> string -> string;
  compress_bytes : bytes -> string -> bytes;
  decompress_bytes : bytes -> string -> bytes;
  compress_array : ndarray -> string -> bytes;
  decompress_array : bytes -> option shape -> option dtype -> string -> ndarray;
  intelligent_cast : ndarray -> dtype -> string -> ndarray;
  astype : ndarray -> dtype -> ndarray;
  serialize_numpy_and_base_types :
    SampleValue -> dtype -> string -> string -> bytes * option shape
}.

Record config : Type := mk_config {
  cfg_dtype : dtype;
  cfg_htype : string;
  cfg_compression : string;
  is_text_like : bool;
  is_byte_compression : bool;
  max_chunk_size : nat
}.

(** The state of a chunk ([BaseChunk] is not among the sources): the buffer,
    the [shapes] list and the two headers, one entry per sample. *)
Record chunk : Type := mk_chunk {
  cfg : config;
  data_bytes : bytes;
  shapes : list (option shape);
  byte_positions_encoder : list (nat * nat);
  shapes_encoder : list (option shape)
}.

Section Chunk.
Context {collab : Collaborators}.

(** Modelled from the spec: [Sample.shape]. *)
Definition Sample_shape (s : Sample) : option shape :=
  match s with
  | SampleArray a => Some (arr_shape a)
  | SampleBuffer _ _ sh => sh
  end.

(** Modelled from the spec: [Sample.array], which decodes stored bytes. *)
Definition Sample_array (s : Sample) : W ndarray :=
  match s with
  | SampleArray a => ret a
  | SampleBuffer b c sh =>
      log Decompress c;
      ret (decompress_array b sh None c)
  end.

(** Modelled from the spec: [Sample.compressed_bytes], after the input
    pipeline of the class docstring: "if incoming compression matches, use
    unprocessed bytes; if incoming compression doesn't match, decompress then
    compress bytes; numpy -> compressed bytes". *)
Definition Sample_compressed_bytes (s : Sample) (c : string) : W bytes :=
  match s with
  | SampleArray a =>
      log Compress c;
      ret (compress_array a c)
  | SampleBuffer b c' sh =>
      if bool_decide (c' = c) then ret b
      else
        log Decompress c';
        log Compress c;
        ret (compress_array (decompress_array b sh None c') c)
  end.

(** [if shape is not None and len(shape) == 0: shape = (1,)] *)
Definition normalize_shape (sh : option shape) : option shape :=
  match sh with
  | Some [] => Some [1]
  | _ => sh
  end.

Definition serialize_sample (self : config) (incoming_sample : SampleValue)
  : W (bytes * option shape) :=
  let dt := cfg_dtype self in
  let ht := cfg_htype self in
  do '(payload, sh) <-
    (if is_text_like self then
       let '(b, sh) := text_to_bytes incoming_sample dt ht in
       log Compress (cfg_compression self);
       ret (compress_bytes b (cfg_compression self), sh)
     else
       match incoming_sample with
       | VSample smp =>
           let sh := Sample_shape smp in
           do smp' <-
             (if is_byte_compression self then
                do arr <- Sample_array smp ;
                ret (SampleArray (intelligent_cast arr dt ht))
              else ret smp) ;
           do b <- Sample_compressed_bytes smp' (cfg_compression self) ;
           ret (b, sh)
       | _ =>
           log Compress (cfg_compression self);
           ret (serialize_numpy_and_base_types
                  incoming_sample dt ht (cfg_compression self))
       end) ;
  ret (payload, normalize_shape sh).

(** Modelled from the spec: [BaseChunk.num_data_bytes], the bytes in use. *)
Definition num_data_bytes (self : chunk) : nat := length (data_bytes self).

(** Modelled from the spec: [BaseChunk.prepare_for_write] changes nothing
    that can be observed. *)
Definition prepare_for_write (self : chunk) : chunk := self.

(** Modelled from the spec: [BaseChunk.register_sample_to_headers] records
    the byte range behind the last one and the shape, "in the two
    headers". *)
Definition register_sample_to_headers
    (self : chunk) (nbytes : nat) (sh : option shape) : chunk :=
  let start :=
    match last (byte_positions_encoder self) with
    | Some (_, eb) => eb
    | None => 0
    end in
  mk_chunk (cfg self) (data_bytes self) (shapes self)
    (byte_positions_encoder self ++ [(start, start + nbytes)])
    (shapes_encoder self ++ [sh]).

(** The wrapper written back into the caller's list. *)
Definition serialized (self : chunk) (payload : bytes) (sh : option shape)
  : SampleValue :=
  VSample (SampleBuffer payload (cfg_compression (cfg self)) sh).

(** The loop of [extend_if_has_space] at index [i], with [n] items left. *)
Fixpoint extend_loop (n i : nat) (self : chunk)
    (incoming_samples : list SampleValue)
  : W (chunk * list SampleValue * nat) :=
  match n with
  | O => ret (self, incoming_samples, length incoming_samples)
  | S n' =>
      match incoming_samples !! i with
      | None => ret (self, incoming_samples, length incoming_samples)
      | Some incoming_sample =>
          do '(serialized_sample, sh) <- serialize_sample (cfg self) incoming_sample ;
          let sample_nbytes := length serialized_sample in
          let incoming_samples :=
            <[i := serialized self serialized_sample sh]> incoming_samples in
          if Nat.ltb (max_chunk_size (cfg self)) (num_data_bytes self + sample_nbytes)
          then ret (self, incoming_samples, i)
          else
            let self :=
              mk_chunk (cfg self) (data_bytes self ++ serialized_sample)
                (shapes self ++ [sh])
                (byte_positions_encoder self) (shapes_encoder self) in
            let self := register_sample_to_headers self sample_nbytes sh in
            extend_loop n' (S i) self incoming_samples
      end
  end.

(** Returns the chunk, the caller's list as the call leaves it, and the
    number of samples accepted. *)
Definition extend_if_has_space (self : chunk)
    (incoming_samples : list SampleValue)
  : W (chunk * list SampleValue * nat) :=
  extend_loop (length incoming_samples) 0 (prepare_for_write self)
    incoming_samples.

Inductive read_value : Type :=
  | RText (s : string)
  | RArray (a : ndarray).

Definition read_sample (self : chunk) (local_sample_index : nat) (cast : bool)
  : res read_value :=
  match byte_positions_encoder self !! local_sample_index with
  | None => Raise IndexError
  | Some (sb, eb) =>
      let buffer := slice sb eb (data_bytes self) in
      match shapes_encoder self !! local_sample_index with
      | None => Raise IndexError
      | Some sh =>
          let c := cfg_compression (cfg self) in
          if is_text_like (cfg self) then
            let buffer := decompress_bytes buffer c in
            Ok (RText (bytes_to_text buffer (cfg_htype (cfg self))))
          else
            let sample :=
              decompress_array buffer sh (Some (cfg_dtype (cfg self))) c in
            let sample :=
              if cast && negb (bool_decide (arr_dtype sample = cfg_dtype (cfg self)))
              then astype sample (cfg_dtype (cfg self))
              else sample in
            res_bind (frombuffer buffer (cfg_dtype (cfg self)))
              (fun a => res_bind (np_reshape a sh) (fun a => Ok (RArray a)))
      end
  end.

(** What the round trip would return: the array decoded from the stored
    bytes, cast to the dtype of the tensor.  [read_sample] computes it as
    [sample] and does not return it. *)
Definition decoded_sample (self : chunk) (local_sample_index : nat)
  : option ndarray :=
  match byte_positions_encoder self !! local_sample_index,
        shapes_encoder self !! local_sample_index with
  | Some (sb, eb), Some sh =>
      let a := decompress_array (slice sb eb (data_bytes self)) sh
                 (Some (cfg_dtype (cfg self))) (cfg_compression (cfg self)) in
      Some (if bool_decide (arr_dtype a = cfg_dtype (cfg self)) then a
            else astype a (cfg_dtype (cfg self)))
  | _, _ => None
  end.

End Chunk.

(** The end of the last byte range is the length of the buffer, and the
    two headers have one entry per sample. *)
Definition headers_consistent (self : chunk) : Prop :=
  match last (byte_positions_encoder self) with
  | Some (_, eb) => eb
  | None => 0
  end = length (data_bytes self)
  /\ length (shapes_encoder self) = length (byte_positions_encoder self).

Definition empty_chunk (c : config) : chunk := mk_chunk c [] [] [] [].

End SampleChunk.

(** *** A codec to run the chunk on

    The simplest lossless codec, used in the worked examples: a "stored"
    block, one header byte in front of the raw bytes.  Text is its UTF-8
    bytes; a [Sample] handed to [text_to_bytes] gives the bytes it holds. *)

Module Stored.
Import SampleChunk.

Definition header : byte := x01.

Definition encode (raw : bytes) : bytes := header :: raw.
Definition decode (b : bytes) : bytes := tail b.

Definition as_array (s : SampleValue) : ndarray :=
  match s with
  | VArray a => a
  | VSample (SampleArray a) => a
  | VSample (SampleBuffer b _ sh) => mk_ndarray uint8 (default [length b] sh) b
  | VText t => mk_ndarray uint8 [1] (list_byte_of_string t)
  end.

#[export] Instance collab : Collaborators := {|
  text_to_bytes s _ _ := (arr_data (as_array s), Some [1]);
  bytes_to_text b _ := string_of_list_byte b;
  compress_bytes b _ := encode b;
  decompress_bytes b _ := decode b;
  compress_array a _ := encode (arr_data a);
  decompress_array b sh dt _ :=
    mk_ndarray (default uint8 dt) (default [length (decode b)] sh) (decode b);
  intelligent_cast a dt _ := mk_ndarray dt (arr_shape a) (arr_data a);
  astype a dt := mk_ndarray dt (arr_shape a) (arr_data a);
  serialize_numpy_and_base_types s _ _ _ :=
    (encode (arr_data (as_array s)), Some (arr_shape (as_array s)))
|}.

(** A byte-valued tensor with sample compression. *)
Definition bytes_tensor (max_size : nat) : config :=
  mk_config uint8 "generic" "stored" false false max_size.

(** A text tensor with sample compression. *)
Definition text_tensor (max_size : nat) : config :=
  mk_config uint8 "text" "stored" true false max_size.

(** A flat [uint8] array of [n] bytes [b]. *)
Definition filled (n : nat) (b : byte) : SampleValue :=
  VArray (mk_ndarray uint8 [n] (repeat b n)).

(** A text chunk of capacity 8 that already holds the 5 bytes of "abcd". *)
Definition text_chunk_abcd : chunk :=
  mk_chunk (text_tensor 8) [x01; x61; x62; x63; x64]
    [Some [1]] [(0, 5)] [Some [1]].

End Stored.

(* ================================================================== *)
(** ** hub/core/linked_chunk_engine.py *)
(* ================================================================== *)

Module LinkedEngine.

(** The value of an [IndexEntry]: an integer or a slice. *)
Inductive entry_value : Type :=
  | EInt (i : Z)
  | ESlice (start stop step : option Z).

(** What reaches [get_video_sample] as [index]: an [Index] object, which
    has [values], or a bare Python [int], which has not. *)
Inductive index : Type :=
  | PyInt (i : Z)
  | Index (values : list entry_value).

(** The engine's collaborators ([ChunkEngine], [CredsEncoder], [LinkCreds],
    the storage providers, [hub.core.compression], [hub.util.video]); they
    are not among the sources. *)
Class Collaborators : Type := {
  handle : Type;
  super_get_basic_sample : nat -> index -> res (list string);
  get_encoded_creds_key : nat -> N;
  get_creds_key : N -> string;
  get_storage_provider : string -> string -> handle;
  get_presigned_url : handle -> string -> string;
  _read_video_shape : string -> shape;
  normalize_index : option entry_value -> nat -> Z * Z * Z * bool;
  _decompress_video : string -> Z -> Z -> Z -> bool -> ndarray
}.

Section Engine.
Context {collab : Collaborators}.

(** [isinstance(index, int)] *)
Definition isinstance_int (ix : index) : bool :=
  match ix with
  | PyInt _ => true
  | Index _ => false
  end.

(** [index.values]: an [int] has no such attribute. *)
Definition index_values (ix : index) : res (list entry_value) :=
  match ix with
  | PyInt _ => Raise AttributeError
  | Index values => Ok values
  end.

Definition is_remote (sample_path : string) : bool :=
  String.prefix "gcs://" sample_path
  || String.prefix "gcp://" sample_path
  || String.prefix "s3://" sample_path.

Definition get_video_sample (global_sample_index : nat) (ix : index)
  : res ndarray :=
  res_bind (super_get_basic_sample global_sample_index ix) (fun basic =>
  match basic !! 0%nat with
  | None => Raise IndexError
  | Some sample_path =>
      let sample_creds_encoded := get_encoded_creds_key global_sample_index in
      let sample_creds_key := get_creds_key sample_creds_encoded in
      let url :=
        if is_remote sample_path then
          let provider_type :=
            if String.prefix "s3://" sample_path then "s3" else "gcs" in
          let storage := get_storage_provider sample_creds_key provider_type in
          get_presigned_url storage sample_path
        else sample_path in
      let squeeze := isinstance_int ix in
      let shp := _read_video_shape url in
      res_bind (index_values ix) (fun values =>
      let sub_index :=
        if Nat.ltb 1 (length values) then values !! 1%nat else None in
      match shp with
      | [] => Raise IndexError
      | nframes :: _ =>
          let '(start, stop, step, reverse) := normalize_index sub_index nframes in
          let video_sample := _decompress_video url start stop step reverse in
          if squeeze then
            (* [video_sample.squeeze(0)]: the squeezed array is dropped *)
            res_bind (squeeze0 video_sample) (fun _ => Ok video_sample)
          else Ok video_sample
      end)
  end).

End Engine.
End LinkedEngine.

(** *** Collaborators to run the engine on: a local video of 10 frames of
    4 x 4 pixels with 3 channels, and [normalize_index] for forward
    indices. *)

Module LocalVideo.
Import LinkedEngine.

Definition nonneg (n : nat) (i : Z) : Z :=
  if (i <? 0)%Z then (Z.of_nat n + i)%Z else i.

Definition normalize (sub_index : option entry_value) (nframes : nat)
  : Z * Z * Z * bool :=
  match sub_index with
  | None => (0%Z, Z.of_nat nframes, 1%Z, false)
  | Some (EInt i) => (nonneg nframes i, (nonneg nframes i + 1)%Z, 1%Z, false)
  | Some (ESlice start stop step) =>
      (nonneg nframes (default 0%Z start),
       nonneg nframes (default (Z.of_nat nframes) stop),
       default 1%Z step, false)
  end.

Definition frames (start stop step : Z) : nat :=
  Z.to_nat ((stop - start + step - 1) / step).

#[export] Instance collab : Collaborators := {|
  handle := unit;
  super_get_basic_sample _ _ := Ok ["videos/clip.mp4"];
  get_encoded_creds_key _ := 0%N;
  get_creds_key _ := "ENV";
  get_storage_provider _ _ := tt;
  get_presigned_url _ path := path;
  _read_video_shape _ := [10; 4; 4; 3];
  normalize_index := normalize;
  _decompress_video _ start stop step _ :=
    mk_ndarray uint8 [frames start stop step; 4; 4; 3]
      (repeat x00 (frames start stop step * 48))
|}.

End LocalVideo.

(* ================================================================== *)
(** ** hub/util/transform.py *)
(* ================================================================== *)

Module Transform.

Local Open Scope Z_scope.

(** An entry of an index meta. *)
Record entry : Type := mk_entry {
  chunk_names : list string;
  start_byte : Z;
  end_byte : Z;
  entry_shape : list Z;
  entry_compression : string
}.

(** Accesses to the storage provider, in the order they are made. *)
Inductive storage_op : Type :=
  | Get (key : string)
  | Set_ (key : string)
  | Del (key : string).

(** Modelled from the spec: [hub.util.keys.get_chunk_key], "chunk object key
    = <tensor_key>/chunks/<hex_chunk_id>". *)
Definition get_chunk_key (tensor chunk_name : string) : string :=
  String.append tensor (String.append "/chunks/" chunk_name).

(** Tensor metadata: the fields [merge_tensor_metas] reads and writes. *)
Record TensorMeta : Type := mk_meta {
  tm_dtype : option string;
  tm_length : Z;
  tm_max_shape : list Z;
  tm_min_shape : list Z
}.

(** Modelled from the spec: [TensorMeta._update_shape_interval], "widen the
    running min/max shape bounds component-wise". *)
Definition _update_shape_interval (tm : TensorMeta) (shp : list Z) : TensorMeta :=
  mk_meta (tm_dtype tm) (tm_length tm)
    (zip_with Z.max shp (tm_max_shape tm))
    (zip_with Z.min shp (tm_min_shape tm)).

(** A row of [_encoded_ids]: column 0, the chunk id, and column 1, the
    cumulative sample count. *)
Abbreviation row := (Z * Z)%type.

(** [_encoded_ids]: [None], or the rows of the array. *)
Abbreviation encoded_ids := (option (list row)).

(** The part of a worker's (or the destination's) chunk engine for one
    tensor that the merge touches. *)
Record engine : Type := mk_engine {
  tensor_meta : TensorMeta;
  chunk_id_encoder : encoded_ids
}.

(** The rows are a numpy array (the merge reshapes and stacks them with
    numpy) whose element type holds chunk identifiers, [ENCODING_DTYPE]; the
    in-place addition [encoded_id[1] += offset] is reduced modulo [2 ^ 32]. *)
Definition row_add (count offset : Z) : Z := (count + offset) mod 2 ^ 32.

Definition assert (b : bool) : res unit :=
  if b then Ok tt else Raise AssertionError.

(** The rows of an encoder, none when [_encoded_ids] is [None]. *)
Definition rows_of (ids : encoded_ids) : list row := default [] ids.


(** The sum of a list of counts. *)
Definition total (counts : list Z) : Z := foldr Z.add 0 counts.

(** An entry moved into the chunk [last_chunk_name], [offset] bytes in. *)
Definition repoint (last_chunk_name : string) (offset : Z) (e : entry) : entry :=
  mk_entry [last_chunk_name] (start_byte e + offset) (end_byte e + offset)
    (entry_shape e) (entry_compression e).

(** The entries as the loop of [merge_chunks] leaves them: the leading run
    of entries that name exactly the absorbed chunk is repointed, the rest
    kept. *)
Fixpoint repointed (first_chunk_name last_chunk_name : string) (offset : Z)
    (entries : list entry) : list entry :=
  match entries with
  | [] => []
  | e :: rest =>
      if bool_decide (chunk_names e = [first_chunk_name])
      then repoint last_chunk_name offset e
             :: repointed first_chunk_name last_chunk_name offset rest
      else entries
  end.

(** Modelled from the spec: [ChunkIdEncoder.num_samples], the total sample
    count of an encoder, which is the cumulative sample count of its last
    row. *)
Definition last_count (ids : encoded_ids) : Z :=
  match last (rows_of ids) with
  | Some r => r.2
  | None => 0
  end.

Section Merge.
(** [hub.constants.DEFAULT_MAX_CHUNK_SIZE] and the property
    [ChunkIdEncoder.num_samples]; they are not among the sources. *)
Variable DEFAULT_MAX_CHUNK_SIZE : Z.
Variable num_samples : encoded_ids -> Z.

(** The [for] loop of [merge_chunks] at index [i], with [n] entries left. *)
Fixpoint repoint_loop (n i : nat) (first_chunk_name last_chunk_name : string)
    (offset : Z) (entries : list entry) : list entry :=
  match n with
  | O => entries
  | S n' =>
      match entries !! i with
      | None => entries
      | Some e =>
          if bool_decide (chunk_names e = [first_chunk_name]) then
            (* the three assignments to [entries[i]] *)
            let e := repoint last_chunk_name offset e in
            repoint_loop n' (S i) first_chunk_name last_chunk_name offset
              (<[i := e]> entries)
          else entries
      end
  end.

(** Returns the storage, the entries of [current_meta] and the storage
    accesses made. *)
Definition merge_chunks (chunk_min_target : Z) (tensor : string)
    (storage : gmap string bytes) (current_meta : list entry)
    (first_chunk_name : string) (first_chunk_size : Z)
    (last_chunk_name : string) (last_chunk_size : Z)
  : res (gmap string bytes * list entry * list storage_op) :=
  if (first_chunk_size <? chunk_min_target)
     && (first_chunk_size + last_chunk_size <=? DEFAULT_MAX_CHUNK_SIZE)
  then
    let first_chunk_key := get_chunk_key tensor first_chunk_name in
    let last_chunk_key := get_chunk_key tensor last_chunk_name in
    match storage !! last_chunk_key with
    | None => Raise KeyError
    | Some last_chunk_content =>
        match storage !! first_chunk_key with
        | None => Raise KeyError
        | Some first_chunk_content =>
            let new_chunk := last_chunk_content ++ first_chunk_content in
            let storage := delete first_chunk_key storage in
            let storage := <[last_chunk_key := new_chunk]> storage in
            let offset := last_chunk_size in
            Ok (storage,
                repoint_loop (length current_meta) 0
                  first_chunk_name last_chunk_name offset current_meta,
                [Get last_chunk_key; Get first_chunk_key;
                 Del first_chunk_key; Set_ last_chunk_key])
        end
    end
  else Ok (storage, current_meta, []).

(** The body of the inner loop of [merge_tensor_metas]. *)
Definition merge_tensor_meta (tm current_meta : TensorMeta) : res TensorMeta :=
  if Nat.eqb (length (tm_max_shape tm)) 0
     || bool_decide (tm_dtype tm = None)
  then
    Ok (mk_meta (tm_dtype current_meta)
          (tm_length tm + tm_length current_meta)
          (tm_max_shape current_meta) (tm_min_shape current_meta))
  else if negb (Nat.eqb (length (tm_min_shape current_meta)) 0) then
    res_bind (assert (bool_decide (tm_dtype tm = tm_dtype current_meta))) (fun _ =>
    res_bind (assert (Nat.eqb (length (tm_max_shape tm))
                        (length (tm_max_shape current_meta)))) (fun _ =>
    res_bind (assert (Nat.eqb (length (tm_min_shape tm))
                        (length (tm_min_shape current_meta)))) (fun _ =>
    let tm := mk_meta (tm_dtype tm) (tm_length tm + tm_length current_meta)
                (tm_max_shape tm) (tm_min_shape tm) in
    let tm := _update_shape_interval tm (tm_max_shape current_meta) in
    let tm := _update_shape_interval tm (tm_min_shape current_meta) in
    Ok tm)))
  else Ok tm.

(** The inner loop, over the workers, for one tensor. *)
Fixpoint merge_tensor_meta_workers (tensor : string)
    (all_workers_chunk_engines : list (gmap string engine))
    (tm : TensorMeta) : res TensorMeta :=
  match all_workers_chunk_engines with
  | [] => Ok tm
  | chunk_engine :: rest =>
      match chunk_engine !! tensor with
      | None => Raise KeyError
      | Some e =>
          res_bind (merge_tensor_meta tm (tensor_meta e))
            (merge_tensor_meta_workers tensor rest)
      end
  end.

(** [ds_out] is the list of its tensors, in the order of
    [ds_out.meta.tensors], each with its engine.  The merged metadata is what
    the source stores in the cache under the tensor's meta key before it
    flushes. *)
Fixpoint merge_tensor_metas
    (all_workers_chunk_engines : list (gmap string engine))
    (ds_out : list (string * engine)) : res (list (string * engine)) :=
  match ds_out with
  | [] => Ok []
  | (tensor, e) :: rest =>
      res_bind (merge_tensor_meta_workers tensor all_workers_chunk_engines
                  (tensor_meta e)) (fun tm =>
      res_bind (merge_tensor_metas all_workers_chunk_engines rest) (fun rest' =>
      Ok ((tensor, mk_engine tm (chunk_id_encoder e)) :: rest')))
  end.

(** The loop over the rows of one worker.  The source adds the offset to
    the worker's own row in place before it copies the row; the workers are
    distinct objects and only the destination is returned here. *)
Fixpoint append_rows (offset : Z) (rows : list row) (dest : encoded_ids)
  : encoded_ids :=
  match rows with
  | [] => dest
  | (id, count) :: rest =>
      let encoded_id := (id, row_add count offset) in
      append_rows offset rest
        (match dest with
         | None => Some [encoded_id]
         | Some ids => Some (ids ++ [encoded_id])
         end)
  end.

(** The loop over the workers, for one tensor, from the running [offset]. *)
Fixpoint merge_encoder_workers (tensor : string) (offset : Z)
    (all_workers_chunk_engines : list (gmap string engine))
    (dest : encoded_ids) : res encoded_ids :=
  match all_workers_chunk_engines with
  | [] => Ok dest
  | chunk_engine :: rest =>
      match chunk_engine !! tensor with
      | None => Raise KeyError
      | Some e =>
          let current := chunk_id_encoder e in
          let n := num_samples current in
          let dest :=
            match current with
            | Some rows => append_rows offset rows dest
            | None => dest
            end in
          merge_encoder_workers tensor (offset + n) rest dest
      end
  end.

Fixpoint merge_chunk_id_encoders
    (all_workers_chunk_engines : list (gmap string engine))
    (ds_out : list (string * engine)) : res (list (string * engine)) :=
  match ds_out with
  | [] => Ok []
  | (tensor, e) :: rest =>
      let offset := num_samples (chunk_id_encoder e) in
      res_bind (merge_encoder_workers tensor offset all_workers_chunk_engines
                  (chunk_id_encoder e)) (fun enc =>
      res_bind (merge_chunk_id_encoders all_workers_chunk_engines rest) (fun rest' =>
      Ok ((tensor, mk_engine (tensor_meta e) enc) :: rest')))
  end.

Definition merge_all_chunk_engines
    (all_workers_chunk_engines : list (gmap string engine))
    (ds_out : list (string * engine)) : res (list (string * engine)) :=
  res_bind (merge_tensor_metas all_workers_chunk_engines ds_out)
    (merge_chunk_id_encoders all_workers_chunk_engines).


End Merge.
End Transform.

(** *** Data for the worked examples *)

Module Scenario.
Import Transform.
Local Open Scope Z_scope.

(** Worker [n+1] wrote the chunks [bb] (1 byte, the sample of its first
    entry) and [cc]; worker [n] ended with the chunk [aa] of 2 bytes. *)
Definition corner_storage : gmap string bytes :=
  {[ "images/chunks/aa" := [x01; x02];
     "images/chunks/bb" := [x03];
     "images/chunks/cc" := [x04; x05; x06; x07] ]}.

Definition corner_meta : list entry :=
  [ mk_entry ["bb"] 0 1 [1] "uncompressed";
    mk_entry ["cc"] 0 4 [4] "uncompressed";
    mk_entry ["bb"] 0 1 [1] "uncompressed" ].

(** Two workers, of 5 and of 2 samples, merged into an empty encoder. *)
Definition worker_a : gmap string engine :=
  {[ "images" := mk_engine (mk_meta (Some "uint8") 5 [2; 2] [2; 2])
                   (Some [(10, 3); (11, 5)]) ]}.
Definition worker_b : gmap string engine :=
  {[ "images" := mk_engine (mk_meta (Some "uint8") 2 [2; 2] [2; 2])
                   (Some [(12, 2)]) ]}.
Definition destination : engine := mk_engine (mk_meta None 0 [] []) None.


End Scenario.

(* ================================================================== *)
(** ** hub/util/chunks.py: the hexadecimal text of a payload *)
(* ================================================================== *)

Module Hexlify.
Import Chunks.

Local Open Scope N_scope.

(** One hexadecimal digit as a byte of ASCII text. *)
Definition hex_byte (d : N) : byte := byte_of_ascii (hex_digit d).

(** [binascii.hexlify]: two lowercase digits for every byte, the high
    half first. *)
Definition hexlify (data : bytes) : bytes :=
  flat_map (fun b => [hex_byte (Byte.to_N b / 16); hex_byte (Byte.to_N b mod 16)])
    data.

(** [binascii.unhexlify]: [binascii.Error], a [ValueError], on a string of
    odd length or on a character that is no hexadecimal digit. *)
Fixpoint unhexlify (hexstr : bytes) : res bytes :=
  match hexstr with
  | [] => Ok []
  | [_] => Raise ValueError
  | c1 :: c2 :: rest =>
      match hex_value (ascii_of_byte c1), hex_value (ascii_of_byte c2) with
      | Some hi, Some lo =>
          match Byte.of_N (hi * 16 + lo) with
          | Some b => res_bind (unhexlify rest) (fun tl => Ok (b :: tl))
          | None => Raise ValueError
          end
      | _, _ => Raise ValueError
      end
  end.

Section Str.
(** Python's [str(payload)], [bytes(s, "utf-8")] and
    [bytes.decode("utf-8")], which raises [UnicodeDecodeError], a
    [ValueError]. *)
Context {payload pystr : Type}.
Variable str : payload -> pystr.
Variable encode_utf8 : pystr -> bytes.
Variable decode_utf8 : bytes -> res pystr.

Definition _str_hexlify (p : payload) : bytes :=
  hexlify (encode_utf8 (str p)).

Definition _str_unhexlify (encoded_payload : bytes) : res pystr :=
  res_bind (unhexlify encoded_payload) decode_utf8.

End Str.
End Hexlify.

(* ================================================================== *)
(** ** hub/util/transform.py: running a pipeline on a sample *)
(* ================================================================== *)

Module Pipeline.

(** What ends a call other than a return. *)
Inductive error : Type :=
  | InvalidTransformOutputError
  | KwargsIndexError              (* [IndexError] of [kwarg_list[index]] *)
  | NotIterable                   (* [TypeError] of [items.extend(r)] *)
  | Raised (e : exn).             (* raised by a function of the pipeline *)

Inductive outcome (A : Type) : Type :=
  | Returns (a : A)
  | Fails (e : error).
Arguments Returns {A} a.
Arguments Fails {A} e.

Definition and_then {A B} (r : outcome A) (k : A -> outcome B) : outcome B :=
  match r with
  | Returns a => k a
  | Fails e => Fails e
  end.

Section Values.
(** The contents of a [dict], the objects that are neither [dict], [list]
    nor [tuple], and the keyword arguments of one function. *)
Variables (dict atom kwargs : Type).

#[warnings="-register-all"]
Inductive value : Type :=
  | VDict (d : dict)
  | VList (items : list value)
  | VTuple (items : list value)
  | VAtom (a : atom).

(** The items of an [atom] when it can be iterated over (a string, a set,
    a generator), [None] when it cannot. *)
Variable iter : atom -> option (list value).

Definition is_dict (v : value) : bool :=
  match v with VDict _ => true | _ => false end.

Definition is_list (v : value) : bool :=
  match v with VList _ => true | _ => false end.

Definition is_list_or_tuple (v : value) : bool :=
  match v with VList _ | VTuple _ => true | _ => false end.

Definition is_atom (v : value) : bool :=
  match v with VAtom _ => true | _ => false end.

(** Every item is a dict. *)
Definition all_dicts (items : list value) : Prop :=
  Forall (fun v => is_dict v = true) items.

(** The items one level down; a dict stands for itself. *)
Definition children (r : value) : list value :=
  match r with
  | VList items | VTuple items => items
  | _ => [r]
  end.

(** [items.extend(r)] for an [r] that is no dict. *)
Definition items_of (r : value) : outcome (list value) :=
  match r with
  | VDict d => Returns [VDict d]
  | VList items | VTuple items => Returns items
  | VAtom a =>
      match iter a with
      | Some items => Returns items
      | None => Fails NotIterable
      end
  end.

Fixpoint flatten_list_of_list (ls : list value) : outcome (list value) :=
  match ls with
  | [] => Returns []
  | r :: rest =>
      and_then (if is_dict r then Returns [r] else items_of r) (fun items =>
      and_then (flatten_list_of_list rest) (fun tl => Returns (items ++ tl)))
  end.

(** The loop of [verify_transform_output] over the items. *)
Fixpoint verify_items (items : list value) : outcome unit :=
  match items with
  | [] => Returns tt
  | item :: rest =>
      if is_dict item then verify_items rest
      else Fails InvalidTransformOutputError
  end.

Definition verify_transform_output (output : value) : outcome unit :=
  match output with
  | VList items | VTuple items => verify_items items
  | VDict _ => Returns tt
  | VAtom _ => Fails InvalidTransformOutputError
  end.

(** A function of the pipeline; it returns or raises. *)
Definition transform : Type := kwargs -> value -> res value.

(** [fn(data, **kwargs)] *)
Definition call (fn : transform) (kw : kwargs) (data : value) : outcome value :=
  match fn kw data with
  | Ok v => Returns v
  | Raise e => Fails (Raised e)
  end.

(** [[fn(data, **kwargs) for data in result]] *)
Fixpoint map_fn (fn : value -> outcome value) (items : list value)
  : outcome (list value) :=
  match items with
  | [] => Returns []
  | data :: rest =>
      and_then (fn data) (fun v =>
      and_then (map_fn fn rest) (fun tl => Returns (v :: tl)))
  end.

(** The body of the loop of [transform_sample] at [index]. *)
Definition transform_step (fn : transform) (kw : kwargs) (index : nat)
    (result : value) : outcome value :=
  and_then
    (match result with
     | VList items | VTuple items =>
         if negb (Nat.eqb index 0)
         then and_then (map_fn (call fn kw) items) (fun l => Returns (VList l))
         else call fn kw result
     | _ => call fn kw result
     end) (fun result =>
  and_then
    (match result with
     | VList items =>
         and_then (flatten_list_of_list items) (fun l => Returns (VList l))
     | _ => Returns result
     end) (fun result =>
  and_then (verify_transform_output result) (fun _ => Returns result))).

(** The loop over [range(len(pipeline))], from [index], [todo] being
    [pipeline[index:]]. *)
Fixpoint transform_loop (todo : list transform) (kwarg_list : list kwargs)
    (index : nat) (result : value) : outcome value :=
  match todo with
  | [] => Returns result
  | fn :: rest =>
      match kwarg_list !! index with
      | None => Fails KwargsIndexError
      | Some kw =>
          and_then (transform_step fn kw index result)
            (transform_loop rest kwarg_list (S index))
      end
  end.

Definition transform_sample (sample : value) (pipeline : list transform)
    (kwarg_list : list kwargs) : outcome (list value) :=
  and_then (transform_loop pipeline kwarg_list 0 sample) (fun result =>
  Returns (match result with
           | VList items => items
           | _ => [result]
           end)).

(** What [pipeline_to_list] is given: one callable or a sequence of them,
    and [None], one dict or a sequence of dicts. *)
Inductive pipeline_arg : Type :=
  | OneFn (fn : transform)
  | FnSeq (fns : list transform).

Inductive kwargs_arg : Type :=
  | KwNone
  | KwDict (kw : kwargs)
  | KwSeq (kws : list kwargs).

(** The empty dict [dict()], and whether a dict is empty. *)
Variable empty_kwargs : kwargs.
Variable kwargs_is_empty : kwargs -> bool.

Definition pipeline_to_list (pipeline : pipeline_arg) (kw : kwargs_arg)
  : list transform * list kwargs :=
  (* [kwargs = kwargs or []] : [None], [{}] and [[]] are falsy *)
  let kw :=
    match kw with
    | KwNone => KwSeq []
    | KwDict d => if kwargs_is_empty d then KwSeq [] else KwDict d
    | KwSeq l => KwSeq l
    end in
  let kws := match kw with KwSeq l => l | KwDict d => [d] | KwNone => [] end in
  let pipeline := match pipeline with FnSeq l => l | OneFn f => [f] end in
  let kws := take (length pipeline) kws in
  let kws := kws ++ replicate (length pipeline - length kws) empty_kwargs in
  (pipeline, kws).

End Values.

Arguments VDict {dict atom} d.
Arguments VList {dict atom} items.
Arguments VTuple {dict atom} items.
Arguments VAtom {dict atom} a.
Arguments is_dict {dict atom} v.
Arguments is_list {dict atom} v.
Arguments is_atom {dict atom} v.
Arguments all_dicts {dict atom} items.
Arguments children {dict atom} r.
Arguments is_list_or_tuple {dict atom} v.
Arguments items_of {dict atom} iter r.
Arguments flatten_list_of_list {dict atom} iter ls.
Arguments verify_items {dict atom} items.
Arguments verify_transform_output {dict atom} output.
Arguments call {dict atom kwargs} fn kw data.
Arguments map_fn {dict atom} fn items.
Arguments transform_step {dict atom kwargs} iter fn kw index result.
Arguments transform_loop {dict atom kwargs} iter todo kwarg_list index result.
Arguments transform_sample {dict atom kwargs} iter sample pipeline kwarg_list.
Arguments OneFn {dict atom kwargs} fn.
Arguments FnSeq {dict atom kwargs} fns.
Arguments KwNone {kwargs}.
Arguments KwDict {kwargs} kw.
Arguments KwSeq {kwargs} kws.
Arguments pipeline_to_list {dict atom kwargs}
  empty_kwargs kwargs_is_empty pipeline kw.

End Pipeline.

(* ================================================================== *)
(** ** hub/util/transform.py: the first chunk of an index meta *)
(* ================================================================== *)

Module IndexMeta.
Import Transform.
Local Open Scope Z_scope.

(** The entry names [chunk_name] first. *)
Definition starts_with (chunk_name : string) (e : entry) : Prop :=
  head (chunk_names e) = Some chunk_name.

Section FirstChunk.
Variable DEFAULT_MAX_CHUNK_SIZE : Z.

(** The size read off an entry that names [chunk_name] first: where the
    sample ends when it lies in that chunk alone, the full size when it
    goes on into other chunks. *)
Definition size_at (chunk_name : string) (e : entry) : Z :=
  if bool_decide (chunk_names e = [chunk_name]) then end_byte e
  else DEFAULT_MAX_CHUNK_SIZE.

(** The [for] loop of [get_first_chunk]. *)
Fixpoint first_chunk_loop (chunk_name : string) (entries : list entry)
    (chunk_size : Z) : Z :=
  match entries with
  | [] => chunk_size
  | e :: rest =>
      if bool_decide (chunk_names e = [chunk_name]) then
        first_chunk_loop chunk_name rest (end_byte e)
      else if Nat.ltb 1 (length (chunk_names e))
              && bool_decide (head (chunk_names e) = Some chunk_name) then
        first_chunk_loop chunk_name rest DEFAULT_MAX_CHUNK_SIZE
      else chunk_size
  end.

Definition get_first_chunk (entries : list entry) : string * Z :=
  match entries with
  | e0 :: _ =>
      match chunk_names e0 with
      | chunk_name :: _ => (chunk_name, first_chunk_loop chunk_name entries 0)
      | [] => (EmptyString, 0)
      end
  | [] => (EmptyString, 0)
  end.

End FirstChunk.
End IndexMeta.

(* ================================================================== *)
(** ** hub/core/chunk_engine/read.py *)
(* ================================================================== *)

Module Read.
Import Transform.
Local Open Scope Z_scope.

(** [os.path.join(a, b)] on a POSIX system. *)
Definition ends_with_slash (s : string) : bool :=
  match String.get (String.length s - 1) s with
  | Some "/"%char => true
  | _ => false
  end.

Definition path_join (a b : string) : string :=
  if String.prefix "/" b then b
  else if Nat.eqb (String.length a) 0 || ends_with_slash a then String.append a b
  else String.append a (String.append "/" b).

(** A bound of a Python slice over a sequence of length [len]. *)
Definition slice_bound (len : nat) (i : Z) : nat :=
  if i <? 0 then Z.to_nat (Z.max (i + Z.of_nat len) 0)
  else Nat.min (Z.to_nat i) len.

(** [b[start:stop]] for integers of either sign. *)
Definition py_slice {A} (start stop : Z) (l : list A) : list A :=
  slice (slice_bound (length l) start) (slice_bound (length l) stop) l.

(** [np.zeros(shape, dtype)]: [ValueError] on a negative dimension. *)
Definition np_zeros (shp : list Z) (dt : dtype) : res ndarray :=
  if forallb (fun d => 0 <=? d) shp then
    let sh := Z.to_nat <$> shp in
    Ok (mk_ndarray dt sh (repeat x00 (numel sh * itemsize dt)))
  else Raise ValueError.

(** [a.reshape(shape)] for a tuple of integers: one dimension may be [-1]
    and is then inferred; [ValueError] otherwise on a negative dimension or
    when the number of elements differs. *)
Definition np_reshape_to (a : ndarray) (shp : list Z) : res ndarray :=
  let size := numel (arr_shape a) in
  let known := filter (fun d => d <> -1) shp in
  let unknown := (length shp - length known)%nat in
  if negb (forallb (fun d => 0 <=? d) known) then Raise ValueError
  else
    let p := numel (Z.to_nat <$> known) in
    match unknown with
    | O => if Nat.eqb p size
           then Ok (mk_ndarray (arr_dtype a) (Z.to_nat <$> shp) (arr_data a))
           else Raise ValueError
    | S O =>
        if Nat.eqb p 0 then Raise ValueError
        else if Nat.eqb (size mod p) 0 then
          Ok (mk_ndarray (arr_dtype a)
                ((fun d => if d =? -1 then (size / p)%nat else Z.to_nat d) <$> shp)
                (arr_data a))
        else Raise ValueError
    | _ => Raise ValueError
    end.

(** [array_from_buffer]; without a shape the array is returned flat, after
    a warning. *)
Definition array_from_buffer (b : bytes) (dt : dtype) (shp : option (list Z))
  : res ndarray :=
  res_bind (frombuffer b dt) (fun array =>
  match shp with
  | Some shp => np_reshape_to array shp
  | None => Ok array
  end).

(** The storage key of a chunk, [os.path.join(key, "chunks", chunk_name)]. *)
Definition chunk_key (key chunk_name : string) : string :=
  path_join (path_join key "chunks") chunk_name.

Section Reading.
(** [hub.constants.UNCOMPRESSED] and [hub.util.compress.decompress_array];
    they are not among the sources. *)
Variable UNCOMPRESSED : string.
Variable decompress_array : bytes -> string -> res ndarray.

(** The loop over [chunk_names]: the buffer and [last_b_len]. *)
Fixpoint read_chunks (key : string) (storage : gmap string bytes)
    (names : list string) (buffer : bytes) (last_b_len : nat)
  : res (bytes * nat) :=
  match names with
  | [] => Ok (buffer, last_b_len)
  | chunk_name :: rest =>
      let chunk_key := chunk_key key chunk_name in
      let last_b_len := length buffer in
      match storage !! chunk_key with
      | None => Raise KeyError
      | Some content => read_chunks key storage rest (buffer ++ content) last_b_len
      end
  end.

Definition sample_from_index_entry (key : string) (storage : gmap string bytes)
    (index_entry : entry) (dt : dtype) : res ndarray :=
  let names := chunk_names index_entry in
  let shp := entry_shape index_entry in
  if Nat.leb (length names) 0 then np_zeros shp dt
  else
    res_bind (read_chunks key storage names [] 0) (fun '(buffer, last_b_len) =>
    let start_byte := start_byte index_entry in
    let end_byte := Z.of_nat last_b_len + end_byte index_entry in
    let mv := py_slice start_byte end_byte buffer in
    let compression := entry_compression index_entry in
    if bool_decide (compression = UNCOMPRESSED)
    then array_from_buffer mv dt (Some shp)
    else decompress_array mv compression).

(** The last step of [sample_from_index_entry], on the bytes cut out. *)
Definition decode_entry (e : entry) (dt : dtype) (mv : bytes) : res ndarray :=
  if bool_decide (entry_compression e = UNCOMPRESSED)
  then array_from_buffer mv dt (Some (entry_shape e))
  else decompress_array mv (entry_compression e).

End Reading.
End Read.

(* ================================================================== *)
(** ** hub/core/linked_chunk_engine.py: credentials of linked samples *)
(* ================================================================== *)

Module LinkedCreds.

(** What a caller can hand over as a sample: a [LinkedSample], made by
    [hub.link], or any other object. *)
Inductive sample : Type :=
  | Linked (path creds_key : string)
  | NotLinked.

Definition is_linked (s : sample) : Prop :=
  match s with Linked _ _ => True | NotLinked => False end.

Fixpoint check_each_sample (samples : list sample) : res unit :=
  match samples with
  | [] => Ok tt
  | Linked _ _ :: rest => check_each_sample rest
  | NotLinked :: _ => Raise TypeError
  end.

Section Creds.
(** [CredsEncoder] with its constructor and [register_samples],
    [LinkCreds.get_encoding], the meta cache with item access, item
    assignment (refused in read-only mode), [get_hub_object] and
    [register_hub_object], and [get_creds_encoder_key]; they are not among
    the sources. *)
Context {encoder cache : Type}.
Variable new_encoder : encoder.
Variable register_samples : encoder -> N -> nat -> encoder.
Variable get_encoding : string -> res N.
Variable cache_getitem : cache -> string -> cache * bool.
Variable cache_setitem : cache -> string -> encoder -> cache * bool.
Variable get_hub_object : cache -> string -> cache * encoder.
Variable register_hub_object : cache -> string -> encoder -> cache.
Variable get_creds_encoder_key : string -> string -> string.

(** The sample is linked and its credentials key has the encoding [code]. *)
Definition encodes (s : sample) (code : N) : Prop :=
  exists path creds_key, s = Linked path creds_key
                         /\ get_encoding creds_key = Ok code.

(** The loop of [register_new_creds] at index [i], with [n] turns left.
    The encoder is changed in place: it is returned as the loop leaves it,
    also when the loop raises. *)
Fixpoint register_loop (n i : nat) (samples : list sample) (enc : encoder)
  : encoder * res unit :=
  match n with
  | O => (enc, Ok tt)
  | S n' =>
      match samples !! i with
      | None => (enc, Raise IndexError)
      | Some NotLinked => (enc, Raise AttributeError)
      | Some (Linked _ creds_key) =>
          match get_encoding creds_key with
          | Raise e => (enc, Raise e)
          | Ok encoded_creds_key =>
              register_loop n' (S i) samples
                (register_samples enc encoded_creds_key 1)
          end
      end
  end.

(** [register_new_creds], on the encoder the engine holds;
    [range(num_samples_added)] is empty for a negative number. *)
Definition register_new_creds (num_samples_added : Z) (samples : list sample)
    (creds_encoder : encoder) : encoder * res unit :=
  register_loop (Z.to_nat num_samples_added) 0 samples creds_encoder.

(** The fields of the engine the accessors read and write. *)
Record engine : Type := mk_engine {
  key : string;
  commit_id : string;
  meta_cache : cache;
  _creds_encoder : option encoder;
  _creds_encoder_commit_id : option string
}.

Definition creds_encoder_exists (self : engine) : engine * bool :=
  if bool_decide (is_Some (_creds_encoder self))
     && bool_decide (_creds_encoder_commit_id self = Some (commit_id self))
  then (self, true)
  else
    let k := get_creds_encoder_key (key self) (commit_id self) in
    let (c, found) := cache_getitem (meta_cache self) k in
    (mk_engine (key self) (commit_id self) c
       (_creds_encoder self) (_creds_encoder_commit_id self), found).

Definition creds_encoder (self : engine) : engine * option encoder :=
  if bool_decide (_creds_encoder self = None)
     || negb (bool_decide (_creds_encoder_commit_id self = Some (commit_id self)))
  then
    let k := get_creds_encoder_key (key self) (commit_id self) in
    let (self, found) := creds_encoder_exists self in
    let (c, enc) :=
      if negb found then
        (* a refused assignment, [ReadOnlyModeError], is passed over *)
        ((cache_setitem (meta_cache self) k new_encoder).1, new_encoder)
      else get_hub_object (meta_cache self) k in
    let c := register_hub_object c k enc in
    let self := mk_engine (key self) (commit_id self) c
                  (Some enc) (Some (commit_id self)) in
    (self, _creds_encoder self)
  else (self, _creds_encoder self).

End Creds.
End LinkedCreds.

(* ================================================================== *)
(** ** The layout of a chunk *)
(* ================================================================== *)

Module ChunkLayout.
Import SampleChunk.

(** Every recorded byte range lies within the buffer. *)
Definition ranges_in_buffer (self : chunk) : Prop :=
  Forall (fun r : nat * nat => r.1 <= r.2 <= length (data_bytes self))
    (byte_positions_encoder self).

(** The chunk after one sample has been accepted. *)
Definition accepted (self : chunk) (payload : bytes) (sh : option shape) : chunk :=
  register_sample_to_headers
    (mk_chunk (cfg self) (data_bytes self ++ payload) (shapes self ++ [sh])
       (byte_positions_encoder self) (shapes_encoder self))
    (length payload) sh.

(** The headers and the buffer of [self] are the start of those of
    [later]. *)
Definition extends (self later : chunk) : Prop :=
  cfg later = cfg self
  /\ byte_positions_encoder self `prefix_of` byte_positions_encoder later
  /\ shapes_encoder self `prefix_of` shapes_encoder later
  /\ data_bytes self `prefix_of` data_bytes later.

End ChunkLayout.

(* ================================================================== *)
(** ** The order of the rows of an encoder *)
(* ================================================================== *)

Module EncoderOrder.
Import Transform.
Local Open Scope Z_scope.


End EncoderOrder.

(* ================================================================== *)
(** ** Worked examples *)
(* ================================================================== *)

Module Examples.
Import SampleChunk Stored.

(** Text of ASCII characters: one byte for every character. *)
Definition ascii_encode (s : string) : bytes := list_byte_of_string s.
Definition ascii_decode (b : bytes) : res string := Ok (string_of_list_byte b).

(** A pipeline over dicts named by strings, with integers for the other
    objects and for the kwargs, [0] being the empty dict: the first
    function makes two dicts of a sample, the second passes its input on. *)
Definition no_items : Z -> option (list (Pipeline.value string Z)) :=
  fun _ => None.
Definition two_of_one : Pipeline.transform string Z Z :=
  fun _ _ => Ok (Pipeline.VList [Pipeline.VDict "left"; Pipeline.VDict "right"]).
Definition pass_on : Pipeline.transform string Z Z :=
  fun _ data => Ok data.
Definition two_step_pipeline : Pipeline.pipeline_arg string Z Z :=
  Pipeline.FnSeq [two_of_one; pass_on].

(** A function that returns a tuple of one dict. *)
Definition one_tuple : Pipeline.transform string Z Z :=
  fun _ _ => Ok (Pipeline.VTuple [Pipeline.VDict "only"]).

(** A chunk of a byte tensor, of capacity 8, that holds one stored sample
    of 5 bytes. *)
Definition bytes_chunk_5 : chunk :=
  mk_chunk (bytes_tensor 8) [x01; x07; x07; x07; x07]
    [Some [4]] [(0, 5)] [Some [4]].

(** A [uint8] scalar, of shape [()]. *)
Definition scalar (b : byte) : SampleValue :=
  VArray (mk_ndarray uint8 [] [b]).

(** No sample of the examples is compressed. *)
Definition no_decompress_array : bytes -> string -> res ndarray :=
  fun _ _ => Raise ValueError.

(** Credentials: an encoder that is the list of the codes registered, and
    a key encoded by its length. *)
Definition codes_registered (enc : list N) (code : N) (n : nat) : list N :=
  enc ++ replicate n code.
Definition key_length (creds_key : string) : res N :=
  Ok (N.of_nat (String.length creds_key)).
Definition two_links : list LinkedCreds.sample :=
  [ LinkedCreds.Linked "s3://bucket/a.jpg" "aws";
    LinkedCreds.Linked "b.jpg" "local" ].

End Examples.

(* ================================================================== *)
(** * Properties *)
(* ================================================================== *)

(** ** Chunk identifiers *)

Section ChunkIds.
Import Chunks.
Local Open Scope N_scope.

Example chunk_name_ex : chunk_name_from_id 0xabcdef1 = "abcdef1"%string.
Proof. reflexivity. Qed.

Example chunk_uuid_ex :
  chunk_uuid_from_id 0xfabcdef1 = Ok 0xfabcdef1000000000000000000000000.
Proof. vm_compute. reflexivity. Qed.

Lemma hex_value_digit (d : N) : d < 16 -> hex_value (hex_digit d) = Some d.
Proof.
  intros H. destruct d as [|p]; [reflexivity|].
  do 4 (destruct p as [p|p|]; try reflexivity); exfalso; lia.
Qed.

Lemma parse_hex_digits (fuel : nat) :
  forall n rest, (1 <= fuel)%nat -> n < 16 ^ N.of_nat fuel ->
    exists k : nat, (1 <= k <= fuel)%nat /\
      (n < 16 ^ N.of_nat k) /\
      (k = 1%nat \/ 16 ^ (N.of_nat k - 1) <= n) /\
      String.length (hex_digits fuel n rest) = (k + String.length rest)%nat /\
      forall v, parse_hex v (hex_digits fuel n rest)
                = parse_hex (v * 16 ^ N.of_nat k + n) rest.
Proof.
  induction fuel as [|fuel IH]; intros n rest Hf Hn; [lia|].
  cbn [hex_digits].
  assert (Hmod : n mod 16 < 16) by (apply N.mod_lt; lia).
  assert (Hdiv : n = 16 * (n / 16) + n mod 16) by (apply N.div_mod; lia).
  replace (N.of_nat (S fuel)) with (N.succ (N.of_nat fuel)) in Hn by lia.
  rewrite N.pow_succ_r' in Hn.
  revert Hmod Hdiv. generalize (n mod 16) (n / 16). intros r q Hmod Hdiv.
  destruct (N.eqb_spec q 0) as [Hz|Hnz].
  - exists 1%nat. change (16 ^ N.of_nat 1) with 16.
    split; [lia|]. split; [lia|].
    split; [left; reflexivity|]. split; [reflexivity|].
    intros v. cbn [parse_hex]. rewrite hex_value_digit by assumption.
    f_equal. lia.
  - assert (Hlt : q < 16 ^ N.of_nat fuel) by lia.
    assert (Hf' : (1 <= fuel)%nat).
    { destruct fuel; [|lia]. simpl in Hlt. lia. }
    destruct (IH q (String (hex_digit r) rest) Hf' Hlt)
      as (k & Hk & Hub & Hlb & Hlen & Hparse).
    exists (S k).
    replace (N.of_nat (S k)) with (N.succ (N.of_nat k)) by lia.
    rewrite N.pow_succ_r'.
    split; [lia|]. split; [lia|]. split; [|split].
    + right. replace (N.succ (N.of_nat k) - 1) with (N.of_nat k) by lia.
      destruct Hlb as [->|Hlb].
      * change (16 ^ N.of_nat 1) with 16. lia.
      * replace (N.of_nat k) with (N.succ (N.of_nat k - 1)) by lia.
        rewrite N.pow_succ_r'. lia.
    + rewrite Hlen. cbn [String.length]. lia.
    + intros v. rewrite Hparse. cbn [parse_hex].
      rewrite hex_value_digit by assumption. f_equal. lia.
Qed.

Lemma hex_fuel (n : N) : n < 16 ^ N.of_nat (S (N.to_nat (N.log2 n))).
Proof.
  replace (N.of_nat (S (N.to_nat (N.log2 n)))) with (N.succ (N.log2 n)) by lia.
  apply N.lt_le_trans with (2 ^ N.succ (N.log2 n)).
  - destruct n as [|p]; [reflexivity|]. apply N.log2_spec. lia.
  - apply N.pow_le_mono_l. lia.
Qed.

Lemma chunk_name_spec (id : N) :
  exists k : nat, (1 <= k)%nat /\ id < 16 ^ N.of_nat k /\
    (k = 1%nat \/ 16 ^ (N.of_nat k - 1) <= id) /\
    String.length (chunk_name_from_id id) = k /\
    forall v, parse_hex v (chunk_name_from_id id) = Some (v * 16 ^ N.of_nat k + id).
Proof.
  unfold chunk_name_from_id, hex, drop2.
  destruct (parse_hex_digits (S (N.to_nat (N.log2 id))) id EmptyString)
    as (k & Hk & Hub & Hlb & Hlen & Hparse); [lia|apply hex_fuel|].
  exists k. split; [lia|]. split; [assumption|]. split; [assumption|].
  split; [rewrite Hlen; simpl; lia|].
  intros v. rewrite Hparse. reflexivity.
Qed.

(** C6. The name of an identifier, its lowercase hexadecimal digits without
    prefix, parses back to the identifier:
    [chunk_id_from_name (chunk_name_from_id id) = id]. *)
Theorem chunk_id_name_round_trip (id : N) :
  chunk_id_from_name (chunk_name_from_id id) = Ok id.
Proof.
  destruct (chunk_name_spec id) as (k & Hk & _ & _ & Hlen & Hparse).
  unfold chunk_id_from_name, int16.
  destruct (chunk_name_from_id id) as [|c s] eqn:E.
  - simpl in Hlen. lia.
  - rewrite Hparse. reflexivity.
Qed.

Lemma chunk_name_length_small (id : N) :
  id < 2 ^ 28 -> (String.length (chunk_name_from_id id) <= 7)%nat.
Proof.
  intros Hid.
  destruct (chunk_name_spec id) as (k & Hk & _ & Hlb & Hlen & _).
  rewrite Hlen. destruct Hlb as [->|Hlb]; [lia|].
  destruct (le_gt_dec k 7) as [|Hgt]; [assumption|exfalso].
  assert (16 ^ N.of_nat 7 <= 16 ^ (N.of_nat k - 1)).
  { apply N.pow_le_mono_r; lia. }
  change (16 ^ N.of_nat 7) with (2 ^ 28) in H. lia.
Qed.

Lemma length_zeros (n : nat) : String.length (zeros n) = n.
Proof. induction n as [|n IH]; simpl; [reflexivity|]. rewrite IH. reflexivity. Qed.

Lemma length_append_zeros (s : string) (n : nat) :
  String.length (String.append s (zeros n)) = (String.length s + n)%nat.
Proof.
  induction s as [|c s IH]; simpl.
  - apply length_zeros.
  - rewrite IH. reflexivity.
Qed.

(** C7. [chunk_uuid_from_id] fails on the identifiers below [2 ^ 28] that
    [random_chunk_id] produces: their name has fewer than 8 digits, the 24
    zeros appended do not bring it to 32, and [UUID(hex=...)] raises
    [ValueError]. *)
Theorem chunk_uuid_from_small_id (r : N) :
  random_chunk_id r < 2 ^ 28 ->
  chunk_uuid_from_id (random_chunk_id r) = Raise ValueError.
Proof.
  intros Hsmall. unfold chunk_uuid_from_id, UUID_of_hex.
  rewrite length_append_zeros.
  pose proof (chunk_name_length_small _ Hsmall) as Hlen.
  destruct (Nat.eqb_spec (String.length (chunk_name_from_id (random_chunk_id r)) + 24) 32);
    [lia|reflexivity].
Qed.

Lemma chunk_uuid_from_small_id_witness :
  random_chunk_id 0x0abcdef1c0ffee00c0ffee00c0ffee00 = 0xabcdef1 /\
  chunk_name_from_id 0xabcdef1 = "abcdef1"%string /\
  chunk_uuid_from_id (random_chunk_id 0x0abcdef1c0ffee00c0ffee00c0ffee00)
    = Raise ValueError.
Proof.
  split; [vm_compute; reflexivity|]. split; [vm_compute; reflexivity|].
  apply (chunk_uuid_from_small_id 0x0abcdef1c0ffee00c0ffee00c0ffee00).
  vm_compute. reflexivity.
Defined.

End ChunkIds.

(** ** Sample-compressed chunks *)

Import SampleChunk.

Section ChunkFacts.
Context {collab : Collaborators}.

Lemma fst_bind {A B} (m : W A) (k : A -> W B) :
  fst (bind m k) = fst (k (fst m)).
Proof. unfold bind. destruct (k (fst m)). reflexivity. Qed.


(** One turn of the loop of [extend_if_has_space]. *)
Lemma extend_loop_step (n i : nat) (self : chunk) (l : list SampleValue)
    (s : SampleValue) :
  l !! i = Some s ->
  let p := fst (serialize_sample (cfg self) s) in
  let l' := <[i := serialized self p.1 p.2]> l in
  fst (extend_loop (S n) i self l) =
    if Nat.ltb (max_chunk_size (cfg self)) (num_data_bytes self + length p.1)
    then (self, l', i)
    else fst (extend_loop n (S i)
                (register_sample_to_headers
                   (mk_chunk (cfg self) (data_bytes self ++ p.1)
                      (shapes self ++ [p.2])
                      (byte_positions_encoder self) (shapes_encoder self))
                   (length p.1) p.2) l').
Proof.
  intros Hs. cbn [extend_loop]. rewrite Hs, fst_bind.
  destruct (serialize_sample (cfg self) s) as [[payload sh] t]. cbn [fst snd].
  destruct (Nat.ltb _ _); reflexivity.
Qed.

Lemma extend_loop_spec (n : nat) :
  forall (i : nat) (self : chunk) (l : list SampleValue),
    i <= length l -> length l <= n + i ->
    let r := fst (extend_loop n i self l) in
    cfg r.1.1 = cfg self /\
    length r.1.2 = length l /\
    i <= r.2 <= length l /\
    (num_data_bytes self <= max_chunk_size (cfg self) ->
     num_data_bytes r.1.1 <= max_chunk_size (cfg self)) /\
    length (byte_positions_encoder r.1.1)
      = length (byte_positions_encoder self) + (r.2 - i) /\
    length (shapes_encoder r.1.1)
      = length (shapes_encoder self) + (r.2 - i) /\
    (forall j s, l !! j = Some s -> i <= j -> j <= r.2 ->
       let p := fst (serialize_sample (cfg self) s) in
       r.1.2 !! j = Some (serialized self p.1 p.2)) /\
    (forall j, j < i \/ r.2 < j -> r.1.2 !! j = l !! j) /\
    (r.2 < length l ->
     exists s, l !! r.2 = Some s /\
       max_chunk_size (cfg self)
         < num_data_bytes r.1.1 + length (fst (serialize_sample (cfg self) s)).1).
Proof.
  induction n as [|n IH]; intros i self l Hi Hn.
  - cbn. assert (i = length l) by lia. subst i.
    split_and!; try done; try lia.
    intros j s Hj Hij _. apply lookup_lt_Some in Hj. lia.
  - destruct (l !! i) as [s|] eqn:Hs.
    + intros r. subst r. rewrite (extend_loop_step n i self l s Hs).
      pose proof (lookup_lt_Some _ _ _ Hs) as Hlt.
      set (p := fst (serialize_sample (cfg self) s)).
      set (l' := <[i := serialized self p.1 p.2]> l).
      assert (Hlen' : length l' = length l) by apply length_insert.
      destruct (Nat.ltb_spec (max_chunk_size (cfg self))
                  (num_data_bytes self + length p.1)) as [Hfull|Hfits].
      * cbn [fst snd]. split_and!; try done; try lia.
        -- intros j s' Hj Hij Hji. assert (j = i) by lia. subst j.
           rewrite Hs in Hj. injection Hj as <-.
           subst l'. apply list_lookup_insert_eq. exact Hlt.
        -- intros j Hj. subst l'. apply list_lookup_insert_ne. lia.
        -- intros _. exists s. split; [exact Hs|exact Hfull].
      * match goal with |- context [extend_loop n (S i) ?c l'] => set (self2 := c) end.
        destruct (IH (S i) self2 l')
          as (Hc & Hl & Hr & Hb & Hbp & Hse & Hw & Hu & Hstop); [lia|lia|].
        set (r := fst (extend_loop n (S i) self2 l')) in *.
        assert (Hcfg2 : cfg self2 = cfg self) by reflexivity.
        split_and!; try lia.
        -- rewrite Hc. exact Hcfg2.
        -- intros Hle. apply Hb.
           subst self2. unfold num_data_bytes in *. cbn.
           rewrite length_app. lia.
        -- rewrite Hbp. subst self2. cbn. rewrite length_app. cbn. lia.
        -- rewrite Hse. subst self2. cbn. rewrite length_app. cbn. lia.
        -- intros j s' Hj Hij Hji.
           destruct (decide (j = i)) as [->|Hne].
           ++ rewrite Hs in Hj. injection Hj as <-.
              rewrite Hu by lia. subst l'. apply list_lookup_insert_eq. exact Hlt.
           ++ assert (Hj' : l' !! j = Some s').
              { subst l'. rewrite list_lookup_insert_ne by lia. exact Hj. }
              specialize (Hw j s' Hj' ltac:(lia) Hji). exact Hw.
        -- intros j Hj. rewrite Hu by lia.
           subst l'. apply list_lookup_insert_ne. lia.
        -- intros Hlt'. destruct Hstop as (s' & Hs' & Hfull'); [lia|].
           exists s'. split; [|exact Hfull'].
           rewrite <- Hs'. subst l'. symmetry. apply list_lookup_insert_ne. lia.
    + apply lookup_ge_None in Hs. assert (i = length l) by lia. subst i.
      cbn [extend_loop]. rewrite (proj2 (lookup_ge_None l (length l))) by lia.
      cbn. split_and!; try done; try lia.
      intros j s Hj Hij _. apply lookup_lt_Some in Hj. lia.
Qed.


(** The codec calls of [serialize_sample] on a text-like chunk. *)
Lemma serialize_sample_text (self : config) (s : SampleValue) :
  is_text_like self = true ->
  serialize_sample self s =
    let p := text_to_bytes s (cfg_dtype self) (cfg_htype self) in
    ((compress_bytes p.1 (cfg_compression self), normalize_shape p.2),
     [Compress (cfg_compression self)]).
Proof.
  intros Ht. unfold serialize_sample. rewrite Ht.
  destruct (text_to_bytes s (cfg_dtype self) (cfg_htype self)) as [b sh].
  reflexivity.
Qed.


(** The path on which the stored bytes are taken as they are. *)
Lemma serialize_sample_memoized (self : config)
    (payload : bytes) (sh : option shape) :
  is_text_like self = false -> is_byte_compression self = false ->
  serialize_sample self
    (VSample (SampleBuffer payload (cfg_compression self) (normalize_shape sh)))
    = ((payload, normalize_shape sh), []).
Proof.
  intros Ht Hb. unfold serialize_sample. rewrite Ht, Hb.
  cbn. rewrite bool_decide_eq_true_2 by reflexivity.
  cbn. destruct sh as [[|d sh]|]; reflexivity.
Qed.

Lemma normalize_shape_idem (sh : option shape) :
  normalize_shape (normalize_shape sh) = normalize_shape sh.
Proof. destruct sh as [[|d sh]|]; reflexivity. Qed.

Lemma serialize_sample_shape_normal (self : config) (s : SampleValue) :
  normalize_shape (fst (serialize_sample self s)).2
    = (fst (serialize_sample self s)).2.
Proof.
  assert (H : exists m : W (bytes * option shape),
             serialize_sample self s
             = bind m (fun x => let '(payload, sh) := x in
                                ret (payload, normalize_shape sh))).
  { eexists. reflexivity. }
  destruct H as [m ->]. rewrite fst_bind.
  destruct (fst m) as [payload sh]. cbn. apply normalize_shape_idem.
Qed.

Lemma slice_app_length {A} (l k : list A) :
  slice (length l) (length l + length k) (l ++ k) = k.
Proof.
  unfold slice. rewrite drop_app_length.
  replace (length l + length k - length l) with (length k) by lia.
  apply firstn_all.
Qed.

(** Reading back the sample a call has just appended: the buffer sliced
    out of the chunk is the serialized payload. *)
Lemma read_sample_after_extend (self : chunk) (s : SampleValue) (cast : bool) :
  headers_consistent self ->
  let p := fst (serialize_sample (cfg self) s) in
  num_data_bytes self + length p.1 <= max_chunk_size (cfg self) ->
  let r := fst (extend_if_has_space self [s]) in
  r.2 = 1 /\
  read_sample r.1.1 (length (byte_positions_encoder self)) cast
    = if is_text_like (cfg self) then
        Ok (RText (bytes_to_text
                     (decompress_bytes p.1 (cfg_compression (cfg self)))
                     (cfg_htype (cfg self))))
      else
        res_bind (frombuffer p.1 (cfg_dtype (cfg self)))
          (fun a => res_bind (np_reshape a p.2) (fun a => Ok (RArray a))).
Proof.
  intros [Hend Hlen] p Hfits r. subst r.
  unfold extend_if_has_space, prepare_for_write. cbn [length].
  rewrite (extend_loop_step 0 0 self [s] s eq_refl). fold p.
  destruct (Nat.ltb_spec (max_chunk_size (cfg self))
              (num_data_bytes self + length p.1)) as [Hfull|_]; [lia|].
  cbn [extend_loop fst snd ret length insert list_insert].
  split; [reflexivity|].
  unfold read_sample, register_sample_to_headers. cbn.
  rewrite lookup_app_r by lia. rewrite Nat.sub_diag. cbn.
  rewrite <- Hlen. rewrite lookup_app_r by lia. rewrite Nat.sub_diag. cbn.
  rewrite Hend. rewrite slice_app_length. reflexivity.
Qed.

(** On a text-like chunk the value decoded is the one returned, so text
    comes back whenever the codec and the text encoding are lossless. *)
Lemma read_sample_text_round_trip (self : chunk) (t : string) (cast : bool) :
  is_text_like (cfg self) = true ->
  (forall b c, decompress_bytes (compress_bytes b c) c = b) ->
  (forall dt ht, bytes_to_text (text_to_bytes (VText t) dt ht).1 ht = t) ->
  headers_consistent self ->
  let p := fst (serialize_sample (cfg self) (VText t)) in
  num_data_bytes self + length p.1 <= max_chunk_size (cfg self) ->
  let r := fst (extend_if_has_space self [VText t]) in
  read_sample r.1.1 (length (byte_positions_encoder self)) cast = Ok (RText t).
Proof.
  intros Ht Hcodec Htext Hwf p Hfits r.
  destruct (read_sample_after_extend self (VText t) cast Hwf Hfits) as [_ Hread].
  fold p r in Hread. rewrite Hread, Ht. subst p.
  rewrite serialize_sample_text by exact Ht. cbn.
  rewrite Hcodec, Htext. reflexivity.
Qed.


(** C1. [read_sample] on a sample just appended to a chunk that is not
    text-like does not give the sample back: what it returns is built by
    [np.frombuffer] over the stored, still compressed, bytes, and the
    decoded array is dropped. *)
Theorem read_sample_returns_stored_payload
    (self : chunk) (s : SampleValue) (cast : bool) :
  is_text_like (cfg self) = false ->
  headers_consistent self ->
  let p := fst (serialize_sample (cfg self) s) in
  num_data_bytes self + length p.1 <= max_chunk_size (cfg self) ->
  let r := fst (extend_if_has_space self [s]) in
  let local_sample_index := length (byte_positions_encoder self) in
  r.2 = 1 /\
  read_sample r.1.1 local_sample_index cast
    = res_bind (frombuffer p.1 (cfg_dtype (cfg self)))
        (fun a => res_bind (np_reshape a p.2) (fun a => Ok (RArray a))) /\
  forall v, read_sample r.1.1 local_sample_index cast = Ok v ->
    exists a, v = RArray a /\ arr_data a = p.1.
Proof.
  intros Ht Hwf p Hfits r idx.
  destruct (read_sample_after_extend self s cast Hwf Hfits) as [Hn Hread].
  fold p r idx in Hn, Hread. rewrite Ht in Hread.
  split; [exact Hn|]. split; [exact Hread|].
  intros v. rewrite Hread. unfold frombuffer, np_reshape.
  destruct (Nat.eqb _ 0); cbn; [|discriminate].
  destruct p.2 as [sh|]; cbn; [|discriminate].
  destruct (Nat.eqb _ _); cbn; [|discriminate].
  intros [= <-]. eexists. split; reflexivity.
Qed.

(** C2. [extend_if_has_space] keeps the bytes in use within
    [max_chunk_size], and the count it returns is the number of entries it
    added to the byte-range header and to the shape header; when it stops
    before the end of the list, the sample at that index is one that would
    not have fitted. *)
Theorem extend_if_has_space_capacity
    (self : chunk) (incoming_samples : list SampleValue) :
  num_data_bytes self <= max_chunk_size (cfg self) ->
  let r := fst (extend_if_has_space self incoming_samples) in
  num_data_bytes r.1.1 <= max_chunk_size (cfg r.1.1) /\
  r.2 <= length incoming_samples /\
  length (byte_positions_encoder r.1.1)
    = length (byte_positions_encoder self) + r.2 /\
  length (shapes_encoder r.1.1) = length (shapes_encoder self) + r.2 /\
  (r.2 < length incoming_samples ->
   exists s, incoming_samples !! r.2 = Some s /\
     max_chunk_size (cfg self)
       < num_data_bytes r.1.1 + length (fst (serialize_sample (cfg self) s)).1).
Proof.
  intros Hle r. subst r. unfold extend_if_has_space, prepare_for_write.
  destruct (extend_loop_spec (length incoming_samples) 0 self incoming_samples)
    as (Hc & _ & Hr & Hb & Hbp & Hse & _ & _ & Hstop); [lia|lia|].
  rewrite Hc. split; [auto|]. split; [lia|].
  rewrite Hbp, Hse. split; [f_equal; lia|]. split; [f_equal; lia|]. exact Hstop.
Qed.

(** Every sample the call visits, the first rejected one included, is
    replaced in the caller's list by a [Sample] holding the serialized
    bytes, the compression of the chunk and the shape; the rest of the list
    is left as it was. *)
Lemma extend_if_has_space_rewrites
    (self : chunk) (incoming_samples : list SampleValue) :
  let r := fst (extend_if_has_space self incoming_samples) in
  length r.1.2 = length incoming_samples /\
  (forall j s, incoming_samples !! j = Some s -> j <= r.2 ->
     let p := fst (serialize_sample (cfg self) s) in
     r.1.2 !! j = Some (VSample (SampleBuffer p.1 (cfg_compression (cfg self)) p.2))) /\
  (forall j, r.2 < j -> r.1.2 !! j = incoming_samples !! j).
Proof.
  intros r. subst r. unfold extend_if_has_space, prepare_for_write.
  destruct (extend_loop_spec (length incoming_samples) 0 self incoming_samples)
    as (_ & Hl & _ & _ & _ & _ & Hw & Hu & _); [lia|lia|].
  split; [exact Hl|]. split.
  - intros j s Hj Hjr. apply (Hw j s Hj); lia.
  - intros j Hj. apply Hu. lia.
Qed.


End ChunkFacts.

Import Stored.

Example stored_payload :
  fst (serialize_sample (bytes_tensor 300) (filled 4 x07))
  = ([x01; x07; x07; x07; x07], Some [4]).
Proof. reflexivity. Qed.

Lemma read_sample_returns_stored_payload_witness :
  let self := empty_chunk (bytes_tensor 300) in
  let s := filled 4 x07 in
  let r := fst (extend_if_has_space self [s]) in
  (r.2 = 1 /\
   read_sample r.1.1 0 true
     = res_bind (frombuffer [x01; x07; x07; x07; x07] uint8)
         (fun a => res_bind (np_reshape a (Some [4])) (fun a => Ok (RArray a))) /\
   forall v, read_sample r.1.1 0 true = Ok v ->
     exists a, v = RArray a /\ arr_data a = [x01; x07; x07; x07; x07]) /\
  read_sample r.1.1 0 true = Raise ValueError /\
  decoded_sample r.1.1 0 = Some (mk_ndarray uint8 [4] [x07; x07; x07; x07]).
Proof.
  split; [|split; reflexivity].
  refine (read_sample_returns_stored_payload (collab := Stored.collab)
            (empty_chunk (bytes_tensor 300)) (filled 4 x07) true _ _ _).
  - reflexivity.
  - split; reflexivity.
  - vm_compute. lia.
Defined.

Lemma extend_if_has_space_capacity_witness :
  let self := empty_chunk (bytes_tensor 300) in
  let samples := [filled 99 x0a; filled 249 x0b] in
  let r := fst (extend_if_has_space self samples) in
  r.2 = 1 /\
  (num_data_bytes r.1.1 <= max_chunk_size (cfg r.1.1) /\
   r.2 <= length samples /\
   length (byte_positions_encoder r.1.1)
     = length (byte_positions_encoder self) + r.2 /\
   length (shapes_encoder r.1.1) = length (shapes_encoder self) + r.2 /\
   (r.2 < length samples ->
    exists s, samples !! r.2 = Some s /\
      max_chunk_size (cfg self)
        < num_data_bytes r.1.1 + length (fst (serialize_sample (cfg self) s)).1)).
Proof.
  split; [vm_compute; reflexivity|].
  refine (extend_if_has_space_capacity (collab := Stored.collab)
            (empty_chunk (bytes_tensor 300)) [filled 99 x0a; filled 249 x0b] _).
  vm_compute. lia.
Defined.


(** ** Linked video samples *)

Import LinkedEngine.

(** C8. [get_video_sample] never returns a squeezed array.  For a bare
    [int] index it raises (an [int] has no [values]); whenever it returns,
    the value is the decoded frame window itself, leading axis included:
    the array made by [squeeze(0)] is dropped. *)
Theorem get_video_sample_keeps_frame_axis
    {collab : Collaborators} (global_sample_index : nat) (ix : index) :
  (isinstance_int ix = true ->
   exists e, get_video_sample global_sample_index ix = Raise e) /\
  (forall v, get_video_sample global_sample_index ix = Ok v ->
   isinstance_int ix = false /\
   exists url start stop step reverse,
     v = _decompress_video url start stop step reverse).
Proof.
  unfold get_video_sample.
  destruct (super_get_basic_sample global_sample_index ix) as [basic|e]; cbn;
    [|split; [eauto|discriminate]].
  destruct (basic !! 0%nat) as [sample_path|]; [|split; [eauto|discriminate]].
  destruct ix as [i|values]; cbn; [split; [eauto|discriminate]|].
  split; [discriminate|]. intros v.
  match goal with |- context [_read_video_shape ?u] => generalize u end.
  intros url. destruct (_read_video_shape url) as [|nframes shp]; [discriminate|].
  destruct (normalize_index _ nframes) as [[[start stop] step] reverse].
  intros [= <-]. split; [reflexivity|]. eauto 10.
Qed.

Import LocalVideo.

Lemma get_video_sample_keeps_frame_axis_witness :
  get_video_sample 0 (PyInt 3) = Raise AttributeError /\
  arr_shape <$> (match get_video_sample 0 (Index [EInt 0; EInt 3]) with
                 | Ok v => Some v | Raise _ => None end) = Some [1; 4; 4; 3] /\
  ((isinstance_int (PyInt 3) = true ->
    exists e, get_video_sample 0 (PyInt 3) = Raise e) /\
   (forall v, get_video_sample 0 (PyInt 3) = Ok v ->
    isinstance_int (PyInt 3) = false /\
    exists url start stop step reverse,
      v = _decompress_video url start stop step reverse)).
Proof.
  split; [reflexivity|]. split; [vm_compute; reflexivity|].
  exact (get_video_sample_keeps_frame_axis (collab := LocalVideo.collab) 0 (PyInt 3)).
Defined.

(** ** Merging the output of the workers *)

Import Transform.
Local Open Scope Z_scope.

Section MergeFacts.
Variable DEFAULT_MAX_CHUNK_SIZE : Z.
Variable num_samples : encoded_ids -> Z.

Lemma repoint_loop_repointed (first last : string) (offset : Z) (n : nat) :
  forall (done todo : list entry),
    (length todo <= n)%nat ->
    repoint_loop n (length done) first last offset (done ++ todo)
      = done ++ repointed first last offset todo.
Proof.
  induction n as [|n IH]; intros done todo Hn.
  - destruct todo; [reflexivity|cbn in Hn; lia].
  - destruct todo as [|e rest].
    + cbn. rewrite (proj2 (lookup_ge_None _ _)); [reflexivity|].
      rewrite length_app. cbn. lia.
    + cbn [repoint_loop repointed].
      rewrite list_lookup_middle by reflexivity.
      destruct (bool_decide (chunk_names e = [first])); [|reflexivity].
      replace (<[length done := repoint last offset e]> (done ++ e :: rest))
        with ((done ++ [repoint last offset e]) ++ rest).
      * replace (S (length done)) with (length (done ++ [repoint last offset e]))
          by (rewrite length_app; cbn; lia).
        rewrite IH by (cbn in Hn; lia).
        rewrite <- app_assoc. reflexivity.
      * rewrite <- app_assoc. rewrite insert_app_r_alt by lia.
        rewrite Nat.sub_diag. reflexivity.
Qed.

Lemma repointed_run (first last : string) (offset : Z) (entries : list entry) :
  exists k : nat,
    (k <= length entries)%nat /\
    (forall i e, (i < k)%nat -> entries !! i = Some e -> chunk_names e = [first]) /\
    (forall e, entries !! k = Some e -> chunk_names e <> [first]) /\
    repointed first last offset entries
      = (repoint last offset <$> take k entries) ++ drop k entries.
Proof.
  induction entries as [|e rest IH].
  - exists 0%nat. cbn. split_and!; [lia|intros; lia|discriminate|reflexivity].
  - cbn [repointed]. destruct (bool_decide_reflect (chunk_names e = [first])) as [He|He].
    + destruct IH as (k & Hk & Hrun & Hstop & Heq).
      exists (S k). split_and!.
      * cbn. lia.
      * intros [|i] e' Hi Hl; cbn in Hl; [congruence|]. apply (Hrun i); [lia|exact Hl].
      * intros e' Hl. cbn in Hl. apply Hstop. exact Hl.
      * cbn. rewrite Heq. reflexivity.
    + exists 0%nat. split_and!; [lia|intros; lia| |reflexivity].
      intros e' [= <-]. exact He.
Qed.

Lemma append_inj_l (pre a b : string) :
  String.append pre a = String.append pre b -> a = b.
Proof. induction pre as [|c pre IH]; cbn; [auto|]. intros [= H]. auto. Qed.

Lemma get_chunk_key_inj (tensor a b : string) :
  get_chunk_key tensor a = get_chunk_key tensor b -> a = b.
Proof.
  unfold get_chunk_key. intros H.
  apply append_inj_l in H. apply append_inj_l in H. exact H.
Qed.

(** C5. Under the size condition, with both chunk objects in storage,
    [merge_chunks] leaves one object where there were two: the last chunk's
    object holds the last chunk's bytes followed by the first chunk's, the
    first chunk's object is gone, no other object changes, and the leading
    run of entries naming exactly the absorbed chunk, up to the first entry
    that does not, is repointed to the last chunk with both byte offsets
    moved by [last_chunk_size]. *)
Theorem merge_chunks_absorbs_first_chunk
    (chunk_min_target : Z) (tensor : string) (storage : gmap string bytes)
    (current_meta : list entry)
    (first_chunk_name last_chunk_name : string)
    (first_chunk_size last_chunk_size : Z)
    (first_chunk_bytes last_chunk_bytes : bytes) :
  first_chunk_size < chunk_min_target ->
  first_chunk_size + last_chunk_size <= DEFAULT_MAX_CHUNK_SIZE ->
  first_chunk_name <> last_chunk_name ->
  storage !! get_chunk_key tensor first_chunk_name = Some first_chunk_bytes ->
  storage !! get_chunk_key tensor last_chunk_name = Some last_chunk_bytes ->
  exists storage' entries' ops (k : nat),
    merge_chunks DEFAULT_MAX_CHUNK_SIZE chunk_min_target tensor storage
      current_meta first_chunk_name first_chunk_size
      last_chunk_name last_chunk_size = Ok (storage', entries', ops) /\
    storage' !! get_chunk_key tensor last_chunk_name
      = Some (last_chunk_bytes ++ first_chunk_bytes) /\
    storage' !! get_chunk_key tensor first_chunk_name = None /\
    (forall key, key <> get_chunk_key tensor first_chunk_name ->
                 key <> get_chunk_key tensor last_chunk_name ->
                 storage' !! key = storage !! key) /\
    S (size storage') = size storage /\
    (k <= length current_meta)%nat /\
    (forall i e, (i < k)%nat -> current_meta !! i = Some e ->
                 chunk_names e = [first_chunk_name]) /\
    (forall e, current_meta !! k = Some e -> chunk_names e <> [first_chunk_name]) /\
    entries' = (repoint last_chunk_name last_chunk_size <$> take k current_meta)
                 ++ drop k current_meta.
Proof.
  intros Hsmall Hfits Hne Hfirst Hlast.
  assert (Hkeys : get_chunk_key tensor first_chunk_name
                  <> get_chunk_key tensor last_chunk_name).
  { intros H. apply Hne. eapply get_chunk_key_inj. exact H. }
  destruct (repointed_run first_chunk_name last_chunk_name last_chunk_size
              current_meta) as (k & Hk & Hrun & Hstop & Heq).
  unfold merge_chunks.
  rewrite (proj2 (Z.ltb_lt _ _) Hsmall), (proj2 (Z.leb_le _ _) Hfits).
  cbn [andb]. rewrite Hlast, Hfirst.
  do 3 eexists. exists k. split; [reflexivity|].
  split_and!.
  - apply lookup_insert_eq.
  - rewrite lookup_insert_ne by congruence. apply lookup_delete_eq.
  - intros key H1 H2. rewrite lookup_insert_ne by congruence.
    apply lookup_delete_ne. congruence.
  - rewrite map_size_insert_Some.
    + rewrite map_size_delete_Some by (rewrite Hfirst; eauto).
      assert (size storage <> 0%nat); [|lia].
      intros H0. apply map_size_empty_inv in H0. subst storage.
      rewrite lookup_empty in Hfirst. discriminate.
    + rewrite lookup_delete_ne by congruence. rewrite Hlast. eauto.
  - exact Hk.
  - exact Hrun.
  - exact Hstop.
  - rewrite <- Heq.
    apply (repoint_loop_repointed first_chunk_name last_chunk_name
             last_chunk_size (length current_meta) [] current_meta). lia.
Qed.

(** C10. When the size condition fails, [merge_chunks] does nothing: no
    access to the storage, the storage and every entry as they were. *)
Theorem merge_chunks_noop
    (chunk_min_target : Z) (tensor : string) (storage : gmap string bytes)
    (current_meta : list entry)
    (first_chunk_name last_chunk_name : string)
    (first_chunk_size last_chunk_size : Z) :
  first_chunk_size >= chunk_min_target
  \/ first_chunk_size + last_chunk_size > DEFAULT_MAX_CHUNK_SIZE ->
  merge_chunks DEFAULT_MAX_CHUNK_SIZE chunk_min_target tensor storage
    current_meta first_chunk_name first_chunk_size
    last_chunk_name last_chunk_size = Ok (storage, current_meta, []).
Proof.
  intros Hcond. unfold merge_chunks.
  destruct (Z.ltb_spec first_chunk_size chunk_min_target);
    destruct (Z.leb_spec (first_chunk_size + last_chunk_size)
                DEFAULT_MAX_CHUNK_SIZE); cbn [andb]; try reflexivity.
  lia.
Qed.


(** *** merge_chunk_id_encoders *)






(** *** merge_tensor_metas *)


End MergeFacts.

(** *** Worked examples *)

Import Scenario.

Lemma merge_chunks_absorbs_first_chunk_witness :
  merge_chunks 32 16 "images" corner_storage corner_meta "bb" 1 "aa" 2
    = Ok ({[ "images/chunks/aa" := [x01; x02; x03];
             "images/chunks/cc" := [x04; x05; x06; x07] ]},
          [ mk_entry ["aa"] 2 3 [1] "uncompressed";
            mk_entry ["cc"] 0 4 [4] "uncompressed";
            mk_entry ["bb"] 0 1 [1] "uncompressed" ],
          [ Get "images/chunks/aa"; Get "images/chunks/bb";
            Del "images/chunks/bb"; Set_ "images/chunks/aa" ]) /\
  exists storage' entries' ops (k : nat),
    merge_chunks 32 16 "images" corner_storage corner_meta "bb" 1 "aa" 2
      = Ok (storage', entries', ops) /\
    storage' !! get_chunk_key "images" "aa" = Some ([x01; x02] ++ [x03]) /\
    storage' !! get_chunk_key "images" "bb" = None /\
    (forall key, key <> get_chunk_key "images" "bb" ->
                 key <> get_chunk_key "images" "aa" ->
                 storage' !! key = corner_storage !! key) /\
    S (size storage') = size corner_storage /\
    (k <= length corner_meta)%nat /\
    (forall i e, (i < k)%nat -> corner_meta !! i = Some e ->
                 chunk_names e = ["bb"]) /\
    (forall e, corner_meta !! k = Some e -> chunk_names e <> ["bb"]) /\
    entries' = (repoint "aa" 2 <$> take k corner_meta) ++ drop k corner_meta.
Proof.
  split; [vm_compute; reflexivity|].
  refine (merge_chunks_absorbs_first_chunk 32 16 "images" corner_storage
            corner_meta "bb" "aa" 1 2 [x03] [x01; x02] _ _ _ _ _).
  - lia.
  - lia.
  - discriminate.
  - vm_compute. reflexivity.
  - vm_compute. reflexivity.
Defined.

Lemma merge_chunks_noop_witness :
  (20 >= 16 \/ 20 + 2 > 32) /\
  merge_chunks 32 16 "images" corner_storage corner_meta "bb" 20 "aa" 2
    = Ok (corner_storage, corner_meta, []).
Proof.
  split; [left; lia|].
  refine (merge_chunks_noop 32 16 "images" corner_storage corner_meta
            "bb" "aa" 20 2 _).
  left. lia.
Defined.



(* ================================================================== *)
(** * Further properties *)
(* ================================================================== *)

Local Close Scope Z_scope.

(** ** More on chunk identifiers *)

Section MoreChunkIds.
Import Chunks.
Local Open Scope N_scope.

Lemma mask_bit_above (mask n : N) :
  N.log2 mask < 96 -> N.testbit mask (n + 96) = false.
Proof. intros H. apply N.bits_above_log2. lia. Qed.

Lemma uuid4_top_bits (r : N) :
  N.shiftr (uuid4 r) 96 = N.shiftr (r mod 2 ^ 128) 96.
Proof.
  unfold uuid4. apply N.bits_inj. intros n.
  rewrite !N.shiftr_spec by lia.
  rewrite N.lor_spec, N.ldiff_spec, N.lor_spec, N.ldiff_spec.
  rewrite (mask_bit_above (N.shiftl 4 76)) by (vm_compute; reflexivity).
  rewrite (mask_bit_above (N.shiftl 0xf000 64)) by (vm_compute; reflexivity).
  rewrite (mask_bit_above (N.shiftl 0x8000 48)) by (vm_compute; reflexivity).
  rewrite (mask_bit_above (N.shiftl 0xc000 48)) by (vm_compute; reflexivity).
  cbn. rewrite !orb_false_r, !andb_true_r. reflexivity.
Qed.

Lemma top_bits_bound (x : N) : x < 2 ^ 128 -> x / 2 ^ 96 < 2 ^ 32.
Proof.
  intros H. apply N.Div0.div_lt_upper_bound.
  change (2 ^ 96 * 2 ^ 32) with (2 ^ 128). exact H.
Qed.

(** X1. [random_chunk_id] is the top 32 bits of the 128 bits drawn for the
    UUID: the version and variant bits that [uuid4] sets lie below bit 96
    and never reach the id, the id is below [2^32], and every 32-bit value
    is the id of some draw. *)
Theorem random_chunk_id_top_bits :
  (forall r, random_chunk_id r = (r mod 2 ^ 128) / 2 ^ 96 /\
             random_chunk_id r < 2 ^ 32) /\
  (forall id, id < 2 ^ 32 -> random_chunk_id (id * 2 ^ 96) = id).
Proof.
  assert (H : forall r, random_chunk_id r = (r mod 2 ^ 128) / 2 ^ 96).
  { intros r. unfold random_chunk_id, _cast_to_encoding_dtype, ENCODING_DTYPE,
      UUID_SHIFT_AMOUNT.
    rewrite uuid4_top_bits, N.shiftr_div_pow2.
    apply N.mod_small. apply top_bits_bound. apply N.mod_lt. discriminate. }
  split.
  - intros r. split; [apply H|]. rewrite H.
    apply top_bits_bound. apply N.mod_lt. discriminate.
  - intros id Hid. rewrite H. rewrite N.mod_small.
    + apply N.div_mul. discriminate.
    + change (2 ^ 128) with (2 ^ 32 * 2 ^ 96).
      apply N.mul_lt_mono_pos_r; [reflexivity|exact Hid].
Qed.

(** X3. Two different chunk ids never get the same chunk name, whatever
    their size. *)
Theorem chunk_name_from_id_injective (id1 id2 : N) :
  id1 <> id2 -> chunk_name_from_id id1 <> chunk_name_from_id id2.
Proof.
  intros Hne Heq. apply Hne.
  destruct (chunk_name_spec id1) as (k1 & _ & _ & _ & Hl1 & Hp1).
  destruct (chunk_name_spec id2) as (k2 & _ & _ & _ & Hl2 & Hp2).
  assert (k1 = k2) by (rewrite <- Hl1, <- Hl2, Heq; reflexivity). subst k2.
  specialize (Hp1 0). specialize (Hp2 0). rewrite Heq, Hp2 in Hp1.
  injection Hp1 as Hp1. rewrite !N.mul_0_l, !N.add_0_l in Hp1. congruence.
Qed.

Lemma chunk_name_from_id_injective_witness :
  0xab <> 0xac /\ chunk_name_from_id 0xab <> chunk_name_from_id 0xac.
Proof.
  assert (H : 0xab <> 0xac) by discriminate.
  exact (conj H (chunk_name_from_id_injective 0xab 0xac H)).
Defined.

Lemma parse_hex_append (a b : string) :
  forall v, parse_hex v (String.append a b)
            = match parse_hex v a with
              | Some v' => parse_hex v' b
              | None => None
              end.
Proof.
  induction a as [|c a IH]; intros v; [reflexivity|].
  change (String.append (String c a) b) with (String c (String.append a b)).
  cbn [parse_hex]. destruct (hex_value c); [apply IH|reflexivity].
Qed.

Lemma parse_hex_zeros (n : nat) :
  forall v, parse_hex v (zeros n) = Some (v * 16 ^ N.of_nat n).
Proof.
  induction n as [|n IH]; intros v.
  - cbn. f_equal. lia.
  - change (parse_hex v (zeros (S n))) with (parse_hex (v * 16 + 0) (zeros n)).
    rewrite IH. f_equal.
    replace (N.of_nat (S n)) with (N.succ (N.of_nat n)) by lia.
    rewrite N.pow_succ_r'. lia.
Qed.

(** [int] takes a string of digits that [parse_hex] takes: such a string
    has no ["x"] in it, so no prefix is cut off. *)
Lemma int16_digits (s : string) (n : N) :
  s <> EmptyString -> parse_hex 0 s = Some n -> int16 s = Ok n.
Proof.
  intros Hne Hp. destruct s as [|c1 s]; [congruence|].
  unfold int16.
  destruct c1 as [[] [] [] [] [] [] [] []];
    try (rewrite Hp; reflexivity).
  destruct s as [|c2 s]; [rewrite Hp; reflexivity|].
  destruct c2 as [[] [] [] [] [] [] [] []];
    try (rewrite Hp; reflexivity); cbn in Hp; discriminate.
Qed.

Lemma digits_of_wide_id (id : N) :
  2 ^ 28 <= id < 2 ^ 32 -> String.length (chunk_name_from_id id) = 8%nat.
Proof.
  intros [Hlo Hhi].
  destruct (chunk_name_spec id) as (k & Hk & Hub & Hlb & Hlen & _).
  rewrite Hlen.
  assert (Hk7 : (7 < k)%nat).
  { destruct (le_gt_dec k 7) as [Hle|]; [exfalso|lia].
    assert (16 ^ N.of_nat k <= 16 ^ 7) by (apply N.pow_le_mono_r; lia).
    change (16 ^ 7) with (2 ^ 28) in H. lia. }
  assert (Hk8 : (k <= 8)%nat).
  { destruct (le_gt_dec k 8) as [|Hgt]; [assumption|exfalso].
    destruct Hlb as [->|Hlb]; [lia|].
    assert (16 ^ 8 <= 16 ^ (N.of_nat k - 1)) by (apply N.pow_le_mono_r; lia).
    change (16 ^ 8) with (2 ^ 32) in H. lia. }
  lia.
Qed.

(** X2. For an id of eight hexadecimal digits, that is from [2^28] up to
    [2^32 - 1], [chunk_uuid_from_id] returns the UUID whose top 32 bits are
    the id and whose other bits are zero, and casting that UUID back gives
    the id. *)
Theorem chunk_uuid_from_wide_id (id : N) :
  2 ^ 28 <= id < 2 ^ 32 ->
  chunk_uuid_from_id id = Ok (id * 2 ^ 96) /\
  _cast_to_encoding_dtype (id * 2 ^ 96) = id.
Proof.
  intros Hid. split.
  - unfold chunk_uuid_from_id, UUID_of_hex.
    rewrite length_append_zeros, (digits_of_wide_id id Hid). cbn [Nat.eqb Nat.add].
    destruct (chunk_name_spec id) as (k & _ & _ & _ & Hlen & Hparse).
    rewrite (digits_of_wide_id id Hid) in Hlen. subst k.
    apply int16_digits.
    + intros H. apply (f_equal String.length) in H.
      rewrite length_append_zeros, (digits_of_wide_id id Hid) in H. discriminate.
    + rewrite parse_hex_append, Hparse, parse_hex_zeros. reflexivity.
  - unfold _cast_to_encoding_dtype, ENCODING_DTYPE, UUID_SHIFT_AMOUNT.
    rewrite N.shiftr_div_pow2, N.div_mul by discriminate.
    apply N.mod_small. lia.
Qed.

Lemma chunk_uuid_from_wide_id_witness :
  chunk_uuid_from_id 0xfabcdef1 = Ok (0xfabcdef1 * 2 ^ 96) /\
  _cast_to_encoding_dtype (0xfabcdef1 * 2 ^ 96) = 0xfabcdef1.
Proof. apply chunk_uuid_from_wide_id. split; vm_compute; congruence. Defined.

End MoreChunkIds.

(** ** The hexadecimal text of a payload *)

Section HexlifyFacts.
Import Chunks Hexlify.
Local Open Scope N_scope.

Lemma unhexlify_byte (b : byte) (tl : bytes) :
  unhexlify (hex_byte (Byte.to_N b / 16) :: hex_byte (Byte.to_N b mod 16) :: tl)
    = res_bind (unhexlify tl) (fun r => Ok (b :: r)).
Proof. destruct b; reflexivity. Qed.

Lemma unhexlify_hexlify (data : bytes) : unhexlify (hexlify data) = Ok data.
Proof.
  induction data as [|b data IH]; [reflexivity|].
  unfold hexlify in *. cbn [flat_map app].
  rewrite unhexlify_byte, IH. reflexivity.
Qed.

Lemma length_hexlify (data : bytes) :
  length (hexlify data) = (2 * length data)%nat.
Proof.
  induction data as [|b data IH]; [reflexivity|].
  unfold hexlify in *. cbn [flat_map app length]. rewrite IH. lia.
Qed.

(** X4. When decoding UTF-8 undoes encoding, [_str_unhexlify] gives back
    the text [str(payload)] that [_str_hexlify] encoded, and the encoded
    payload has two bytes for every byte of that text. *)
Theorem str_hexlify_round_trip
    (payload pystr : Type) (str : payload -> pystr)
    (encode_utf8 : pystr -> bytes) (decode_utf8 : bytes -> res pystr)
    (p : payload) :
  (forall s, decode_utf8 (encode_utf8 s) = Ok s) ->
  _str_unhexlify decode_utf8 (_str_hexlify str encode_utf8 p)
    = Ok (str p) /\
  length (_str_hexlify str encode_utf8 p)
    = (2 * length (encode_utf8 (str p)))%nat.
Proof.
  intros Hutf8. unfold _str_unhexlify, _str_hexlify. split.
  - rewrite unhexlify_hexlify. cbn. apply Hutf8.
  - apply length_hexlify.
Qed.

End HexlifyFacts.

Import Pipeline.

(** ** Running a pipeline *)

Section PipelineFacts.
Import Pipeline.
Context {dict atom kwargs : Type}.
Variable iter : atom -> option (list (value dict atom)).

Lemma verify_items_ok (items : list (value dict atom)) :
  verify_items items = Returns tt <-> all_dicts items.
Proof.
  unfold all_dicts. induction items as [|v items IH]; cbn.
  - split; [constructor|reflexivity].
  - destruct (is_dict v) eqn:Hd.
    + rewrite IH. split; [intros H; constructor; assumption|].
      intros H. inversion H. assumption.
    + split; [discriminate|]. intros H. inversion H. congruence.
Qed.

Lemma verify_items_fails (items : list (value dict atom)) :
  verify_items items = Returns tt
  \/ verify_items items = Fails InvalidTransformOutputError.
Proof.
  induction items as [|v items IH]; cbn; [left; reflexivity|].
  destruct (is_dict v); [exact IH|right; reflexivity].
Qed.


(** X5. [flatten_list_of_list] flattens one level and no more: when no
    item is an object other than a dict, a list or a tuple, the result is
    the concatenation of the items' own items, a dict standing for itself;
    a list of dicts comes back as it is. *)
Theorem flatten_list_of_list_one_level (ls : list (value dict atom)) :
  (Forall (fun r => is_atom r = false) ls ->
   flatten_list_of_list iter ls = Returns (concat (children <$> ls))) /\
  (all_dicts ls -> flatten_list_of_list iter ls = Returns ls).
Proof.
  split.
  - induction ls as [|r ls IH]; intros H; [reflexivity|].
    inversion H as [|? ? Hr Hls]; subst. cbn [flatten_list_of_list].
    rewrite (IH Hls). destruct r; cbn in *; try reflexivity. discriminate.
  - unfold all_dicts. induction ls as [|r ls IH]; intros H; [reflexivity|].
    inversion H as [|? ? Hr Hls]; subst. cbn [flatten_list_of_list].
    rewrite Hr, (IH Hls). reflexivity.
Qed.

Lemma transform_step_verified (fn : (transform dict atom kwargs)) (kw : kwargs) (index : nat)
    (result result' : (value dict atom)) :
  transform_step iter fn kw index result = Returns result' ->
  verify_transform_output result' = Returns tt.
Proof.
  unfold transform_step.
  match goal with |- and_then ?m _ = _ -> _ => destruct m as [r1|e] end;
    cbn; [|discriminate].
  match goal with |- and_then ?m _ = _ -> _ => destruct m as [r2|e] end;
    cbn; [|discriminate].
  destruct (verify_transform_output r2) as [[]|e] eqn:Hv;
    cbn; [|discriminate].
  intros [= <-]. exact Hv.
Qed.

Lemma transform_loop_verified (todo : list (transform dict atom kwargs)) (kwarg_list : list kwargs) :
  forall (index : nat) (result result' : (value dict atom)),
    todo <> [] ->
    transform_loop iter todo kwarg_list index result
      = Returns result' ->
    verify_transform_output result' = Returns tt.
Proof.
  induction todo as [|fn rest IH]; intros index result result' Hne; [congruence|].
  cbn [transform_loop]. destruct (kwarg_list !! index) as [kw|]; [|discriminate].
  destruct (transform_step iter fn kw index result)
    as [r1|e] eqn:Hstep; cbn; [|discriminate].
  destruct rest as [|fn' rest'].
  - cbn. intros [= <-]. eapply transform_step_verified. exact Hstep.
  - apply IH. discriminate.
Qed.

(** X7. What [transform_sample] returns for a non-empty pipeline is a
    list of dicts, or a list holding one tuple of dicts; the second case
    happens, since a tuple is neither flattened by the loop nor unpacked at
    the return. *)
Theorem transform_sample_output
    (sample : (value dict atom)) (pipeline : list (transform dict atom kwargs)) (kwarg_list : list kwargs) :
  (forall out, pipeline <> [] ->
     transform_sample iter sample pipeline kwarg_list
       = Returns out ->
     all_dicts out
     \/ exists items, out = [VTuple items] /\ all_dicts items) /\
  (forall (fn : (transform dict atom kwargs)) (kw : kwargs) items,
     fn kw sample = Ok (VTuple items) -> all_dicts items ->
     transform_sample iter sample [fn] [kw]
       = Returns [VTuple items]).
Proof.
  split.
  - intros out Hne. unfold transform_sample.
    destruct (transform_loop iter pipeline kwarg_list 0 sample)
      as [result|e] eqn:Hloop; cbn; [|discriminate].
    intros [= <-].
    pose proof (transform_loop_verified _ _ _ _ _ Hne Hloop) as Hv.
    destruct result as [d|items|items|a]; cbn in Hv.
    + left. repeat constructor.
    + left. apply verify_items_ok. exact Hv.
    + right. exists items. split; [reflexivity|]. apply verify_items_ok. exact Hv.
    + discriminate.
  - intros fn kw items Hfn Hd. unfold transform_sample. cbn.
    unfold transform_step, call.
    destruct sample; cbn; rewrite Hfn; cbn;
      rewrite (proj2 (verify_items_ok items) Hd); reflexivity.
Qed.

(** Only the lookup [kwarg_list[index]] fails with [KwargsIndexError]. *)
Lemma and_then_kwargs {A B} (m : outcome A) (k : A -> outcome B) :
  m <> Fails KwargsIndexError ->
  (forall a, k a <> Fails KwargsIndexError) ->
  and_then m k <> Fails KwargsIndexError.
Proof.
  intros Hm Hk. destruct m as [a|e]; cbn; [apply Hk|].
  intros [= ->]. apply Hm. reflexivity.
Qed.

Lemma call_kwargs (fn : (transform dict atom kwargs)) (kw : kwargs) (data : (value dict atom)) :
  call fn kw data <> Fails KwargsIndexError.
Proof. unfold call. destruct (fn kw data); discriminate. Qed.

Lemma map_fn_kwargs (fn : (transform dict atom kwargs)) (kw : kwargs) (items : list (value dict atom)) :
  map_fn (call fn kw) items <> Fails KwargsIndexError.
Proof.
  induction items as [|v items IH]; cbn; [discriminate|].
  apply and_then_kwargs; [apply call_kwargs|]. intros v'.
  apply and_then_kwargs; [exact IH|discriminate].
Qed.

Lemma flatten_kwargs (ls : list (value dict atom)) :
  flatten_list_of_list iter ls <> Fails KwargsIndexError.
Proof.
  induction ls as [|r ls IH]; cbn; [discriminate|].
  apply and_then_kwargs.
  - destruct r as [d|items|items|a]; cbn; try discriminate.
    destruct (iter a); discriminate.
  - intros items. apply and_then_kwargs; [exact IH|discriminate].
Qed.

Lemma verify_kwargs (output : (value dict atom)) :
  verify_transform_output output <> Fails KwargsIndexError.
Proof.
  destruct output as [d|items|items|a]; cbn; try discriminate;
    destruct (verify_items_fails items) as [-> | ->]; discriminate.
Qed.

Lemma transform_step_kwargs (fn : (transform dict atom kwargs)) (kw : kwargs) (index : nat)
    (result : (value dict atom)) :
  transform_step iter fn kw index result <> Fails KwargsIndexError.
Proof.
  unfold transform_step. apply and_then_kwargs.
  - destruct result as [d|items|items|a]; try apply call_kwargs;
      destruct (negb (Nat.eqb index 0)); try apply call_kwargs;
      (apply and_then_kwargs; [apply map_fn_kwargs|discriminate]).
  - intros r1. apply and_then_kwargs.
    + destruct r1 as [d|items|items|a]; try discriminate.
      apply and_then_kwargs; [apply flatten_kwargs|discriminate].
    + intros r2. apply and_then_kwargs; [apply verify_kwargs|discriminate].
Qed.

Lemma transform_loop_kwargs (todo : list (transform dict atom kwargs)) (kwarg_list : list kwargs) :
  forall (index : nat) (result : (value dict atom)),
    length todo + index <= length kwarg_list ->
    transform_loop iter todo kwarg_list index result
      <> Fails KwargsIndexError.
Proof.
  induction todo as [|fn rest IH]; intros index result Hlen; cbn; [discriminate|].
  cbn in Hlen.
  destruct (lookup_lt_is_Some_2 kwarg_list index ltac:(lia)) as [kw ->].
  apply and_then_kwargs; [apply transform_step_kwargs|].
  intros r1. apply IH. lia.
Qed.

Section ToList.
Variable empty_kwargs : kwargs.
Variable kwargs_is_empty : kwargs -> bool.

Lemma pipeline_to_list_lengths
    (pipeline : pipeline_arg dict atom kwargs) (kw : kwargs_arg kwargs) :
  let r := pipeline_to_list empty_kwargs kwargs_is_empty pipeline kw in
  length r.2 = length r.1.
Proof.
  cbn zeta. unfold pipeline_to_list. cbn [fst snd].
  rewrite length_app, length_replicate, length_take. lia.
Qed.

(** X8. [pipeline_to_list] returns as many kwargs as functions: the
    kwargs given are cut to the length of the pipeline and padded with
    empty dicts, [None] gives empty dicts only, and a single dict goes to
    the first function unless it is empty. *)
Theorem pipeline_to_list_pads
    (pipeline : pipeline_arg dict atom kwargs) (kw : kwargs_arg kwargs) :
  let r := pipeline_to_list empty_kwargs kwargs_is_empty pipeline kw in
  length r.2 = length r.1 /\
  r.1 = match pipeline with FnSeq fns => fns | OneFn fn => [fn] end /\
  (forall kws i, kw = KwSeq kws -> i < length r.1 ->
     r.2 !! i = Some (default empty_kwargs (kws !! i))) /\
  (kw = KwNone -> r.2 = replicate (length r.1) empty_kwargs) /\
  (forall d i, kw = KwDict d -> i < length r.1 ->
     r.2 !! i = Some (if Nat.eqb i 0 && negb (kwargs_is_empty d)
                      then d else empty_kwargs)).
Proof.
  intros r. subst r. unfold pipeline_to_list. cbn [fst snd].
  set (p := match pipeline with FnSeq l => l | OneFn f => [f] end).
  assert (Hpad : forall kws i, i < length p ->
            (take (length p) kws
               ++ replicate (length p - length (take (length p) kws)) empty_kwargs)
              !! i = Some (default empty_kwargs (kws !! i))).
  { intros kws i Hi. rewrite length_take.
    destruct (decide (i < length kws)) as [Hlt|Hge].
    - rewrite lookup_app_l by (rewrite length_take; lia).
      rewrite lookup_take_lt by lia.
      destruct (lookup_lt_is_Some_2 kws i Hlt) as [x ->]. reflexivity.
    - rewrite lookup_app_r by (rewrite length_take; lia).
      rewrite length_take, (proj2 (lookup_ge_None kws i)) by lia.
      apply lookup_replicate_2. lia. }
  split_and!.
  - apply (pipeline_to_list_lengths pipeline kw).
  - reflexivity.
  - intros kws i -> Hi. apply Hpad. exact Hi.
  - intros ->. rewrite take_nil. cbn [length app]. f_equal. lia.
  - intros d i -> Hi. destruct (kwargs_is_empty d); cbn [negb andb].
    + rewrite andb_false_r. rewrite Hpad by exact Hi.
      rewrite lookup_nil. reflexivity.
    + rewrite Hpad by exact Hi. destruct i; reflexivity.
Qed.

(** X9. With the functions and kwargs that [pipeline_to_list] returns,
    [transform_sample] never fails with the [IndexError] of
    [kwarg_list[index]], whatever the pipeline and the kwargs given. *)
Theorem transform_sample_after_pipeline_to_list
    (sample : (value dict atom)) (pipeline : pipeline_arg dict atom kwargs)
    (kw : kwargs_arg kwargs) :
  let r := pipeline_to_list empty_kwargs kwargs_is_empty pipeline kw in
  transform_sample iter sample r.1 r.2 <> Fails KwargsIndexError.
Proof.
  intros r. pose proof (pipeline_to_list_lengths pipeline kw) as Hlen.
  cbn zeta in Hlen. fold r in Hlen. unfold transform_sample.
  apply and_then_kwargs; [|discriminate].
  apply transform_loop_kwargs. lia.
Qed.

End ToList.

End PipelineFacts.

Import IndexMeta.

(** ** The first chunk of a worker *)

Section FirstChunkFacts.
Local Open Scope Z_scope.
Variable DEFAULT_MAX_CHUNK_SIZE : Z.

Lemma first_chunk_loop_run (chunk_name : string) (run rest : list entry) :
  forall size0,
    Forall (starts_with chunk_name) run ->
    (forall e, head rest = Some e -> ~ starts_with chunk_name e) ->
    first_chunk_loop DEFAULT_MAX_CHUNK_SIZE chunk_name (run ++ rest) size0
      = match last run with
        | Some e => size_at DEFAULT_MAX_CHUNK_SIZE chunk_name e
        | None => size0
        end.
Proof.
  unfold starts_with.
  induction run as [|e run IH]; intros size0 Hrun Hrest.
  - cbn [app last]. destruct rest as [|e rest]; [reflexivity|].
    cbn [first_chunk_loop]. specialize (Hrest e eq_refl).
    rewrite bool_decide_eq_false_2.
    + rewrite (bool_decide_eq_false_2 _ Hrest), andb_false_r. reflexivity.
    + intros H. apply Hrest. rewrite H. reflexivity.
  - inversion Hrun as [|? ? He Hrun']; subst.
    change ((e :: run) ++ rest) with (e :: (run ++ rest)).
    cbn [first_chunk_loop].
    assert (Hlast : forall s, match last (e :: run) with
                              | Some e' => size_at DEFAULT_MAX_CHUNK_SIZE chunk_name e'
                              | None => s
                              end
                              = match last run with
                                | Some e' => size_at DEFAULT_MAX_CHUNK_SIZE chunk_name e'
                                | None => size_at DEFAULT_MAX_CHUNK_SIZE chunk_name e
                                end).
    { intros s. destruct run as [|e' run']; [reflexivity|].
      rewrite last_cons. destruct (last (e' :: run')); reflexivity. }
    rewrite Hlast. unfold size_at at 2.
    destruct (bool_decide_reflect (chunk_names e = [chunk_name])) as [Hex|Hex].
    + apply IH; assumption.
    + rewrite (bool_decide_eq_true_2 _ He), andb_true_r.
      destruct (chunk_names e) as [|n1 [|n2 names]] eqn:Hn.
      * discriminate.
      * cbn in He. congruence.
      * cbn. apply IH; assumption.
Qed.

(** The name is that of the first entry, the size is what the loop
    leaves. *)
Lemma get_first_chunk_loop (chunk_name : string) (e0 : entry)
    (entries : list entry) :
  starts_with chunk_name e0 ->
  get_first_chunk DEFAULT_MAX_CHUNK_SIZE (e0 :: entries)
    = (chunk_name,
       first_chunk_loop DEFAULT_MAX_CHUNK_SIZE chunk_name (e0 :: entries) 0).
Proof.
  unfold starts_with, get_first_chunk. intros He0.
  destruct (chunk_names e0) as [|n names] eqn:Hn; [discriminate|].
  cbn in He0. injection He0 as ->. reflexivity.
Qed.

(** X10. When the index meta starts with a run of entries that name
    [chunk_name] first, and the entry after the run does not,
    [get_first_chunk] returns that name with the size read off the last
    entry of the run: its end byte when it names that chunk alone, the
    maximum chunk size when its sample goes on into other chunks. Entries
    after the run are not looked at. *)
Theorem get_first_chunk_run
    (chunk_name : string) (run rest : list entry) (e_last : entry) :
  Forall (starts_with chunk_name) run ->
  last run = Some e_last ->
  (forall e, head rest = Some e -> ~ starts_with chunk_name e) ->
  get_first_chunk DEFAULT_MAX_CHUNK_SIZE (run ++ rest)
    = (chunk_name, size_at DEFAULT_MAX_CHUNK_SIZE chunk_name e_last).
Proof.
  intros Hrun Hlast Hrest.
  destruct run as [|e0 run]; [discriminate|].
  change ((e0 :: run) ++ rest) with (e0 :: (run ++ rest)).
  rewrite (get_first_chunk_loop chunk_name e0 (run ++ rest))
    by (inversion Hrun; assumption).
  change (e0 :: (run ++ rest)) with ((e0 :: run) ++ rest).
  rewrite (first_chunk_loop_run chunk_name (e0 :: run) rest 0 Hrun Hrest).
  rewrite Hlast. reflexivity.
Qed.


Lemma get_first_chunk_none (entries : list entry) :
  (forall e, head entries = Some e -> chunk_names e = []) ->
  get_first_chunk DEFAULT_MAX_CHUNK_SIZE entries = (EmptyString, 0).
Proof.
  intros H. destruct entries as [|e rest]; [reflexivity|].
  unfold get_first_chunk. rewrite (H e eq_refl). reflexivity.
Qed.



(** A merge that is due raises [KeyError] when one of the two chunks is
    not in the storage. *)
Lemma merge_chunks_missing_chunk
    (chunk_min_target : Z) (tensor : string) (storage : gmap string bytes)
    (current_meta : list entry)
    (first_chunk_name last_chunk_name : string)
    (first_chunk_size last_chunk_size : Z) :
  first_chunk_size < chunk_min_target ->
  first_chunk_size + last_chunk_size <= DEFAULT_MAX_CHUNK_SIZE ->
  storage !! get_chunk_key tensor first_chunk_name = None
  \/ storage !! get_chunk_key tensor last_chunk_name = None ->
  merge_chunks DEFAULT_MAX_CHUNK_SIZE chunk_min_target tensor storage
    current_meta first_chunk_name first_chunk_size
    last_chunk_name last_chunk_size = Raise KeyError.
Proof.
  intros Hsmall Hfits Hmiss. unfold merge_chunks.
  rewrite (proj2 (Z.ltb_lt _ _) Hsmall), (proj2 (Z.leb_le _ _) Hfits).
  cbn [andb].
  destruct (storage !! get_chunk_key tensor last_chunk_name) as [lc|];
    [|reflexivity].
  destruct Hmiss as [-> | H]; [reflexivity|discriminate].
Qed.

End FirstChunkFacts.

Import Read.

(** ** Reading a sample from its index entry *)

Section ReadFacts.
Local Open Scope Z_scope.
Variable UNCOMPRESSED : string.
Variable decompress_array : bytes -> string -> res ndarray.

Lemma read_chunks_all (key : string) (storage : gmap string bytes)
    (names : list string) (contents : list bytes) :
  Forall2 (fun n c => storage !! chunk_key key n = Some c) names contents ->
  forall buffer last_b_len,
    read_chunks key storage names buffer last_b_len
      = Ok (buffer ++ concat contents,
            match names with
            | [] => last_b_len
            | _ => length (buffer ++ concat (removelast contents))
            end).
Proof.
  induction 1 as [|n c names contents Hn Hrest IH]; intros buffer last_b_len.
  - cbn. rewrite app_nil_r. reflexivity.
  - cbn [read_chunks]. fold (chunk_key key n). rewrite Hn, IH.
    cbn [concat]. rewrite app_assoc. f_equal. f_equal.
    destruct Hrest as [|n' c' names' contents' _ _].
    + cbn. rewrite app_nil_r. reflexivity.
    + cbn [removelast concat]. rewrite app_assoc. reflexivity.
Qed.

Lemma read_chunks_missing (key : string) (storage : gmap string bytes)
    (names : list string) :
  Exists (fun n => storage !! chunk_key key n = None) names ->
  forall buffer last_b_len,
    read_chunks key storage names buffer last_b_len = Raise KeyError.
Proof.
  induction names as [|n names IH]; intros H buffer last_b_len.
  - inversion H.
  - cbn [read_chunks]. fold (chunk_key key n).
    destruct (storage !! chunk_key key n) as [c|] eqn:Hn; [|reflexivity].
    apply IH. inversion H; [congruence|assumption].
Qed.

Lemma sample_from_index_entry_stored
    (key : string) (storage : gmap string bytes) (e : entry) (dt : dtype)
    (contents : list bytes) :
  chunk_names e <> [] ->
  Forall2 (fun n c => storage !! chunk_key key n = Some c)
    (chunk_names e) contents ->
  sample_from_index_entry UNCOMPRESSED decompress_array key storage e dt
    = decode_entry UNCOMPRESSED decompress_array e dt
        (py_slice (start_byte e)
           (Z.of_nat (length (concat (removelast contents))) + end_byte e)
           (concat contents)).
Proof.
  unfold sample_from_index_entry, decode_entry. intros Hne Hall.
  destruct (chunk_names e) as [|n names] eqn:Hn; [congruence|].
  cbn [length Nat.leb].
  rewrite (read_chunks_all key storage (n :: names) contents Hall). cbn.
  reflexivity.
Qed.

Lemma sample_from_index_entry_missing
    (key : string) (storage : gmap string bytes) (e : entry) (dt : dtype) :
  Exists (fun n => storage !! chunk_key key n = None) (chunk_names e) ->
  sample_from_index_entry UNCOMPRESSED decompress_array key storage e dt
    = Raise KeyError.
Proof.
  unfold sample_from_index_entry. intros Hmiss.
  destruct (chunk_names e) as [|n names] eqn:Hn; [inversion Hmiss|].
  cbn [length Nat.leb].
  rewrite (read_chunks_missing key storage (n :: names) Hmiss). reflexivity.
Qed.

(** X12. [sample_from_index_entry] in closed form. Without chunk names it
    returns zeros of the entry's shape. With all chunks stored it decodes
    the slice of their concatenation from the start byte to the end byte
    counted from the start of the last chunk. With a chunk missing it
    raises [KeyError]. *)
Theorem sample_from_index_entry_bytes
    (key : string) (storage : gmap string bytes) (e : entry) (dt : dtype) :
  (chunk_names e = [] ->
   sample_from_index_entry UNCOMPRESSED decompress_array key storage e dt
     = np_zeros (entry_shape e) dt) /\
  (forall contents,
     chunk_names e <> [] ->
     Forall2 (fun n c => storage !! chunk_key key n = Some c)
       (chunk_names e) contents ->
     sample_from_index_entry UNCOMPRESSED decompress_array key storage e dt
       = decode_entry UNCOMPRESSED decompress_array e dt
           (py_slice (start_byte e)
              (Z.of_nat (length (concat (removelast contents))) + end_byte e)
              (concat contents))) /\
  (Exists (fun n => storage !! chunk_key key n = None) (chunk_names e) ->
   sample_from_index_entry UNCOMPRESSED decompress_array key storage e dt
     = Raise KeyError).
Proof.
  split_and!.
  - intros Hnone. unfold sample_from_index_entry. rewrite Hnone. reflexivity.
  - intros contents Hne Hall.
    apply sample_from_index_entry_stored; assumption.
  - apply sample_from_index_entry_missing.
Qed.

Lemma string_length_append (a b : string) :
  String.length (String.append a b) = (String.length a + String.length b)%nat.
Proof.
  induction a as [|c a IH]; [reflexivity|].
  change (String.append (String c a) b) with (String c (String.append a b)).
  cbn [String.length]. rewrite IH. reflexivity.
Qed.

Lemma string_append_assoc (a b c : string) :
  String.append a (String.append b c) = String.append (String.append a b) c.
Proof.
  induction a as [|x a IH]; [reflexivity|].
  change (String.append (String x a) ?y) with (String x (String.append a y)).
  rewrite IH. reflexivity.
Qed.

(** The last character of a string with something appended. *)
Lemma ends_with_slash_append (a b : string) :
  b <> EmptyString ->
  ends_with_slash (String.append a b) = ends_with_slash b.
Proof.
  intros Hb. induction a as [|c a IH]; [reflexivity|].
  change (String.append (String c a) b) with (String c (String.append a b)).
  unfold ends_with_slash in *. cbn [String.length].
  assert (Hlen : (0 < String.length (String.append a b))%nat).
  { rewrite string_length_append. destruct b; [congruence|cbn; lia]. }
  replace (S (String.length (String.append a b)) - 1)%nat
    with (S (String.length (String.append a b) - 1)) by lia.
  cbn [String.get]. exact IH.
Qed.

Lemma append_nonempty (a b : string) :
  b <> EmptyString -> String.length (String.append a b) <> 0%nat.
Proof.
  intros Hb. rewrite string_length_append. destruct b; [congruence|cbn; lia].
Qed.

(** For a tensor key that is not empty and does not end in a slash, and a
    chunk name that does not start with one, [read.py] and [merge_chunks]
    name the same object. *)
Lemma chunk_key_get_chunk_key (tensor chunk_name : string) :
  tensor <> EmptyString -> ends_with_slash tensor = false ->
  String.prefix "/" chunk_name = false ->
  chunk_key tensor chunk_name = get_chunk_key tensor chunk_name.
Proof.
  intros Hne Hslash Hname. unfold chunk_key, path_join, get_chunk_key.
  change (String.prefix "/" "chunks") with false. cbn [String.prefix].
  rewrite Hname, Hslash.
  destruct (Nat.eqb_spec (String.length tensor) 0) as [H0|_].
  { destruct tensor; [congruence|discriminate]. }
  cbn [orb].
  rewrite (proj2 (Nat.eqb_neq _ _)) by (apply append_nonempty; discriminate).
  rewrite ends_with_slash_append by discriminate. cbn [orb].
  change (ends_with_slash (String.append "/" "chunks")) with false.
  cbn [orb].
  rewrite <- string_append_assoc. reflexivity.
Qed.

Lemma slice_bound_shift (la lb : nat) (i : Z) :
  0 <= i ->
  slice_bound (la + lb) (i + Z.of_nat la) = (la + slice_bound lb i)%nat.
Proof.
  intros Hi. unfold slice_bound.
  rewrite (proj2 (Z.ltb_ge _ _)) by lia. rewrite (proj2 (Z.ltb_ge _ _)) by lia.
  lia.
Qed.

Lemma py_slice_shift {A} (a b : list A) (start stop : Z) :
  0 <= start -> 0 <= stop ->
  py_slice (start + Z.of_nat (length a)) (stop + Z.of_nat (length a)) (a ++ b)
    = py_slice start stop b.
Proof.
  intros Hs He. unfold py_slice, slice. rewrite length_app.
  rewrite !slice_bound_shift by assumption.
  rewrite drop_app_ge by lia.
  f_equal; [lia|]. f_equal. lia.
Qed.

(** X13. A merge keeps what the samples read as. After [merge_chunks]
    has merged, a repointed entry of the first chunk reads from the new
    storage what the entry read before; an entry that names neither chunk
    reads as before; an entry that still names the first chunk, which is
    the case of an entry left behind by the loop or of a sample that spans
    chunks, raises [KeyError]. *)
Theorem merge_chunks_keeps_samples
    (DEFAULT_MAX_CHUNK_SIZE chunk_min_target : Z) (tensor : string)
    (storage : gmap string bytes) (current_meta : list entry)
    (first_chunk_name last_chunk_name : string)
    (first_chunk_size : Z)
    (first_chunk_bytes last_chunk_bytes : bytes) (dt : dtype) :
  let last_chunk_size := Z.of_nat (length last_chunk_bytes) in
  let read := sample_from_index_entry UNCOMPRESSED decompress_array tensor in
  first_chunk_size < chunk_min_target ->
  first_chunk_size + last_chunk_size <= DEFAULT_MAX_CHUNK_SIZE ->
  first_chunk_name <> last_chunk_name ->
  storage !! get_chunk_key tensor first_chunk_name = Some first_chunk_bytes ->
  storage !! get_chunk_key tensor last_chunk_name = Some last_chunk_bytes ->
  tensor <> EmptyString -> ends_with_slash tensor = false ->
  String.prefix "/" first_chunk_name = false ->
  String.prefix "/" last_chunk_name = false ->
  exists storage' entries' ops,
    merge_chunks DEFAULT_MAX_CHUNK_SIZE chunk_min_target tensor storage
      current_meta first_chunk_name first_chunk_size
      last_chunk_name last_chunk_size = Ok (storage', entries', ops) /\
    (forall e, chunk_names e = [first_chunk_name] ->
       0 <= start_byte e -> 0 <= end_byte e ->
       read storage' (repoint last_chunk_name last_chunk_size e) dt
         = read storage e dt) /\
    (forall e,
       Forall (fun n => String.prefix "/" n = false
                        /\ n <> first_chunk_name /\ n <> last_chunk_name)
         (chunk_names e) ->
       read storage' e dt = read storage e dt) /\
    (forall e, first_chunk_name ∈ chunk_names e ->
       read storage' e dt = Raise KeyError).
Proof.
  intros last_chunk_size read Hsmall Hfits Hne Hfirst Hlast Ht Hslash Hpf Hpl.
  assert (Hkeys : get_chunk_key tensor first_chunk_name
                  <> get_chunk_key tensor last_chunk_name).
  { intros H. apply Hne. eapply get_chunk_key_inj. exact H. }
  pose proof (chunk_key_get_chunk_key tensor first_chunk_name Ht Hslash Hpf) as Hkf.
  pose proof (chunk_key_get_chunk_key tensor last_chunk_name Ht Hslash Hpl) as Hkl.
  unfold merge_chunks.
  rewrite (proj2 (Z.ltb_lt _ _) Hsmall), (proj2 (Z.leb_le _ _) Hfits).
  cbn [andb]. rewrite Hlast, Hfirst.
  set (storage' := <[get_chunk_key tensor last_chunk_name
                     := last_chunk_bytes ++ first_chunk_bytes]>
                     (delete (get_chunk_key tensor first_chunk_name) storage)).
  do 3 eexists. split; [reflexivity|]. split_and!.
  - intros e He Hs Hend. subst read.
    pose proof (sample_from_index_entry_stored tensor storage e dt) as Hold.
    pose proof (sample_from_index_entry_stored tensor storage'
                  (repoint last_chunk_name last_chunk_size e) dt) as Hnew.
    rewrite (Hold [first_chunk_bytes]).
    2:{ rewrite He. discriminate. }
    2:{ rewrite He. repeat constructor. rewrite Hkf. exact Hfirst. }
    rewrite (Hnew [last_chunk_bytes ++ first_chunk_bytes]).
    2:{ discriminate. }
    2:{ cbn. repeat constructor. rewrite Hkl. subst storage'.
        apply lookup_insert_eq. }
    unfold decode_entry. cbn [repoint entry_compression entry_shape start_byte
      end_byte removelast concat length app].
    rewrite !app_nil_r. subst last_chunk_size.
    replace (Z.of_nat 0 + (end_byte e + Z.of_nat (length last_chunk_bytes)))
      with (end_byte e + Z.of_nat (length last_chunk_bytes)) by lia.
    rewrite py_slice_shift by assumption.
    replace (Z.of_nat 0 + end_byte e) with (end_byte e) by lia. reflexivity.
  - intros e He. subst read. unfold sample_from_index_entry.
    assert (Hrc : forall buffer last_b_len,
              read_chunks tensor storage' (chunk_names e) buffer last_b_len
              = read_chunks tensor storage (chunk_names e) buffer last_b_len).
    { induction He as [|n names (Hp & Hn1 & Hn2) _ IH]; intros buffer lbl;
        [reflexivity|].
      cbn [read_chunks]. fold (chunk_key tensor n).
      rewrite (chunk_key_get_chunk_key tensor n Ht Hslash Hp).
      assert (Hlook : storage' !! get_chunk_key tensor n
                      = storage !! get_chunk_key tensor n).
      { subst storage'. rewrite lookup_insert_ne.
        - apply lookup_delete_ne. intros H. apply Hn1. symmetry.
          eapply get_chunk_key_inj. exact H.
        - intros H. apply Hn2. symmetry. eapply get_chunk_key_inj. exact H. }
      rewrite Hlook. destruct (storage !! get_chunk_key tensor n); [apply IH|].
      reflexivity. }
    rewrite Hrc. reflexivity.
  - intros e Hin. subst read.
    apply sample_from_index_entry_missing. apply Exists_exists. exists first_chunk_name.
    split; [exact Hin|]. rewrite Hkf. subst storage'.
    rewrite lookup_insert_ne by congruence. apply lookup_delete_eq.
Qed.

End ReadFacts.

Import EncoderOrder.

(** ** More on the merge of worker output *)

Section MoreMergeFacts.
Local Open Scope Z_scope.
Variable num_samples : encoded_ids -> Z.

(** X14. [merge_tensor_meta] raises [AssertionError] exactly when the
    destination meta has a shape and a dtype, the worker's meta has a
    shape, and the two differ in dtype or in the number of dimensions; in
    every other case it returns, [_update_shape_interval] raising
    nothing. *)
Theorem merge_tensor_meta_outcome (tm w : TensorMeta) :
  let compatible :=
    tm_dtype tm = tm_dtype w
    /\ length (tm_max_shape tm) = length (tm_max_shape w)
    /\ length (tm_min_shape tm) = length (tm_min_shape w) in
  let checked :=
    tm_max_shape tm <> [] /\ tm_dtype tm <> None /\ tm_min_shape w <> [] in
  (checked /\ ~ compatible -> merge_tensor_meta tm w = Raise AssertionError) /\
  (~ checked \/ compatible -> exists tm', merge_tensor_meta tm w = Ok tm').
Proof.
  intros compatible checked. subst compatible checked.
  unfold merge_tensor_meta, assert.
  destruct (Nat.eqb_spec (length (tm_max_shape tm)) 0) as [Hz|Hnz]; cbn [orb].
  { apply nil_length_inv in Hz.
    split; [intros [[H _] _]; congruence|eauto]. }
  destruct (bool_decide_reflect (tm_dtype tm = None)) as [Hnone|Hsome].
  { split; [intros [(_ & H & _) _]; congruence|eauto]. }
  destruct (Nat.eqb_spec (length (tm_min_shape w)) 0) as [Hwz|Hwnz]; cbn [negb].
  { apply nil_length_inv in Hwz.
    split; [intros [(_ & _ & H) _]; congruence|eauto]. }
  assert (Hchecked : tm_max_shape tm <> [] /\ tm_dtype tm <> None
                     /\ tm_min_shape w <> []).
  { split_and!; [| exact Hsome |]; intros H; rewrite H in *; cbn in *; lia. }
  destruct (bool_decide_reflect (tm_dtype tm = tm_dtype w)) as [Hd|Hd];
    cbn [res_bind].
  2:{ split; [reflexivity|]. intros [H|[H _]]; [tauto|congruence]. }
  destruct (Nat.eqb_spec (length (tm_max_shape tm)) (length (tm_max_shape w)))
    as [H1|H1]; cbn [res_bind].
  2:{ split; [reflexivity|]. intros [H|(_ & H & _)]; [tauto|congruence]. }
  destruct (Nat.eqb_spec (length (tm_min_shape tm)) (length (tm_min_shape w)))
    as [H2|H2]; cbn [res_bind].
  2:{ split; [reflexivity|]. intros [H|(_ & _ & H)]; [tauto|congruence]. }
  split; [|eauto]. intros [_ H]. exfalso. apply H. split_and!; assumption.
Qed.

Lemma merge_tensor_meta_length (tm w tm' : TensorMeta) :
  merge_tensor_meta tm w = Ok tm' ->
  (tm_min_shape w = [] -> tm_length w = 0) ->
  tm_length tm' = tm_length tm + tm_length w.
Proof.
  unfold merge_tensor_meta, assert. intros H Hw.
  destruct (_ || _).
  - injection H as <-. reflexivity.
  - destruct (Nat.eqb_spec (length (tm_min_shape w)) 0) as [Hwz|Hwnz];
      cbn [negb] in H.
    + apply nil_length_inv in Hwz. injection H as <-.
      rewrite Hw by exact Hwz. lia.
    + destruct (bool_decide _); cbn [res_bind] in H; [|discriminate].
      destruct (Nat.eqb _ _); cbn [res_bind] in H; [|discriminate].
      destruct (Nat.eqb _ _); cbn [res_bind] in H; [|discriminate].
      injection H as <-. reflexivity.
Qed.

(** X15. When [merge_tensor_metas] goes through for a tensor, the length
    of the destination meta has grown by the sum of the workers' lengths,
    provided a worker's meta without a shape has length 0. *)
Theorem merge_tensor_metas_length
    (tensor : string) (workers : list (gmap string engine))
    (metas : list TensorMeta) (tm tm' : TensorMeta) :
  Forall2 (fun w m => tensor_meta <$> w !! tensor = Some m) workers metas ->
  Forall (fun m => tm_min_shape m = [] -> tm_length m = 0) metas ->
  merge_tensor_meta_workers tensor workers tm = Ok tm' ->
  tm_length tm' = tm_length tm + total (tm_length <$> metas).
Proof.
  intros Hw. revert tm.
  induction Hw as [|w m workers metas Hwm _ IH]; intros tm Hm Hok.
  - cbn in *. injection Hok as <-. lia.
  - cbn [merge_tensor_meta_workers] in Hok.
    destruct (w !! tensor) as [e|]; [|discriminate].
    cbn in Hwm. injection Hwm as Hwm. subst m.
    inversion Hm as [|? ? Hm1 Hm2]; subst.
    destruct (merge_tensor_meta tm (tensor_meta e)) as [tm1|err] eqn:Hstep;
      cbn in Hok; [|discriminate].
    rewrite (IH tm1 Hm2 Hok).
    rewrite (merge_tensor_meta_length _ _ _ Hstep Hm1).
    unfold total. cbn [fmap list_fmap foldr]. lia.
Qed.





(** The merge of the metadata keeps names and encoders. *)
Lemma merge_tensor_metas_keeps (workers : list (gmap string engine)) :
  forall ds ms,
    merge_tensor_metas workers ds = Ok ms ->
    Forall2 (fun d m => d.1 = m.1
                        /\ chunk_id_encoder d.2 = chunk_id_encoder m.2) ds ms.
Proof.
  induction ds as [|[tensor e] ds IH]; intros ms H; cbn in H.
  - injection H as <-. constructor.
  - destruct (merge_tensor_meta_workers tensor workers (tensor_meta e));
      cbn in H; [|discriminate].
    destruct (merge_tensor_metas workers ds) as [ms'|]; cbn in H; [|discriminate].
    injection H as <-. constructor; [split; reflexivity|]. apply IH. reflexivity.
Qed.

(** The merge of the encoders reads names and encoders only. *)
Lemma merge_chunk_id_encoders_reads (workers : list (gmap string engine)) :
  forall ds ms,
    Forall2 (fun d m => d.1 = m.1
                        /\ chunk_id_encoder d.2 = chunk_id_encoder m.2) ds ms ->
    merge_chunk_id_encoders num_samples workers ms
      = res_bind (merge_chunk_id_encoders num_samples workers ds) (fun es =>
          Ok (zip_with (fun m e => (m.1, mk_engine (tensor_meta m.2)
                                          (chunk_id_encoder e.2))) ms es)).
Proof.
  intros ds ms H. induction H as [|[t e] [t' e'] ds ms [Ht He] _ IH]; [reflexivity|].
  cbn in Ht, He. subst t'. cbn [merge_chunk_id_encoders]. rewrite <- He.
  destruct (merge_encoder_workers num_samples t _ workers (chunk_id_encoder e));
    cbn; [|reflexivity].
  rewrite IH. destruct (merge_chunk_id_encoders num_samples workers ds);
    reflexivity.
Qed.

(** X18. The two passes of [merge_all_chunk_engines] do not depend on
    each other: when it returns, each tensor has the meta that
    [merge_tensor_metas] gives alone and the encoder that
    [merge_chunk_id_encoders] gives alone, and the tensors are those of the
    destination, in order. *)
Theorem merge_all_chunk_engines_independent
    (workers : list (gmap string engine)) (ds_out out : list (string * engine)) :
  merge_all_chunk_engines num_samples workers ds_out = Ok out ->
  exists ms es,
    merge_tensor_metas workers ds_out = Ok ms /\
    merge_chunk_id_encoders num_samples workers ds_out = Ok es /\
    out = zip_with (fun m e => (m.1, mk_engine (tensor_meta m.2)
                                       (chunk_id_encoder e.2))) ms es /\
    out.*1 = ds_out.*1.
Proof.
  unfold merge_all_chunk_engines. intros H.
  destruct (merge_tensor_metas workers ds_out) as [ms|] eqn:Hms;
    cbn in H; [|discriminate].
  pose proof (merge_tensor_metas_keeps workers ds_out ms Hms) as Hkeep.
  rewrite (merge_chunk_id_encoders_reads workers ds_out ms Hkeep) in H.
  destruct (merge_chunk_id_encoders num_samples workers ds_out) as [es|] eqn:Hes;
    cbn in H; [|discriminate].
  injection H as <-. exists ms, es. split_and!; try reflexivity.
  assert (Hes' : Forall2 (fun d e => d.1 = e.1) ds_out es).
  { clear -Hes. revert es Hes.
    induction ds_out as [|[t e] ds IH]; intros es H; cbn in H.
    - injection H as <-. constructor.
    - destruct (merge_encoder_workers _ _ _ _ _); cbn in H; [|discriminate].
      destruct (merge_chunk_id_encoders num_samples workers ds) as [es'|];
        cbn in H; [|discriminate].
      injection H as <-. constructor; [reflexivity|]. apply IH. reflexivity. }
  clear -Hkeep Hes'. revert es Hes'.
  induction Hkeep as [|d m ds ms [Hn _] _ IH]; intros es Hes'.
  - inversion Hes'. reflexivity.
  - inversion Hes' as [|? e ? es' _ Hes'']; subst. cbn. rewrite Hn.
    f_equal. apply IH. exact Hes''.
Qed.

End MoreMergeFacts.

Import ChunkLayout.

(** ** More on sample-compressed chunks *)

Section MoreChunkFacts.
Context {collab : SampleChunk.Collaborators}.

(** What holds of a chunk and is kept by accepting a sample holds after
    [extend_if_has_space]. *)
Lemma extend_loop_keeps (P : chunk -> Prop) :
  (forall self payload sh, P self -> P (accepted self payload sh)) ->
  forall n i self l, P self -> P (fst (extend_loop n i self l)).1.1.
Proof.
  intros Hstep. induction n as [|n IH]; intros i self l HP; [exact HP|].
  destruct (l !! i) as [s|] eqn:Hs.
  - rewrite (extend_loop_step n i self l s Hs).
    destruct (Nat.ltb _ _); [exact HP|]. apply IH. apply Hstep. exact HP.
  - cbn [extend_loop]. rewrite Hs. exact HP.
Qed.

Lemma extend_loop_data (n : nat) :
  forall (i : nat) (self : chunk) (l : list SampleValue),
    i <= length l -> length l <= n + i ->
    let r := fst (extend_loop n i self l) in
    let done := take (r.2 - i) (drop i l) in
    data_bytes r.1.1
      = data_bytes self
          ++ concat ((fun s => (fst (serialize_sample (cfg self) s)).1) <$> done)
    /\ shapes r.1.1
      = shapes self
          ++ ((fun s => (fst (serialize_sample (cfg self) s)).2) <$> done).
Proof.
  induction n as [|n IH]; intros i self l Hi Hn.
  - cbn. assert (i = length l) by lia. subst i.
    rewrite Nat.sub_diag. cbn. rewrite !app_nil_r. split; reflexivity.
  - destruct (l !! i) as [s|] eqn:Hs.
    + intros r. subst r.
      pose proof I as Hspec.
      rewrite (extend_loop_step n i self l s Hs).
      pose proof (lookup_lt_Some _ _ _ Hs) as Hlt.
      set (p := fst (serialize_sample (cfg self) s)) in *.
      set (l' := <[i := serialized self p.1 p.2]> l) in *.
      destruct (Nat.ltb _ _).
      * cbn [fst snd]. rewrite Nat.sub_diag. cbn. rewrite !app_nil_r.
        split; reflexivity.
      * match goal with |- context [extend_loop n (S i) ?c l'] => set (self2 := c) in * end.
        destruct (IH (S i) self2 l') as [Hd Hsh];
          [subst l'; rewrite length_insert; lia
          |subst l'; rewrite length_insert; lia|].
        clear Hspec.
        destruct (extend_loop_spec n (S i) self2 l') as (_ & _ & Hr & _);
          [subst l'; rewrite length_insert; lia
          |subst l'; rewrite length_insert; lia|].
        set (r := fst (extend_loop n (S i) self2 l')) in *.
        assert (Hdrop : drop (S i) l' = drop (S i) l).
        { subst l'. apply drop_insert_lt. lia. }
        assert (Htake : take (r.2 - i) (drop i l)
                        = s :: take (r.2 - S i) (drop (S i) l)).
        { rewrite (drop_S l s i Hs).
          replace (r.2 - i) with (S (r.2 - S i)) by lia. reflexivity. }
        cbn zeta. rewrite Htake. rewrite Hd, Hsh, Hdrop. cbn.
        rewrite <- !app_assoc. split; reflexivity.
    + apply lookup_ge_None in Hs. assert (i = length l) by lia. subst i.
      cbn [extend_loop]. rewrite (proj2 (lookup_ge_None l (length l))) by lia.
      cbn. rewrite Nat.sub_diag. cbn. rewrite !app_nil_r. split; reflexivity.
Qed.

Lemma extend_if_has_space_written
    (self : chunk) (incoming_samples : list SampleValue) :
  let r := fst (extend_if_has_space self incoming_samples) in
  let done := take r.2 incoming_samples in
  data_bytes r.1.1
    = data_bytes self
        ++ concat ((fun s => (fst (serialize_sample (cfg self) s)).1) <$> done)
  /\ shapes r.1.1
    = shapes self ++ ((fun s => (fst (serialize_sample (cfg self) s)).2) <$> done).
Proof.
  intros r done. subst r done. unfold extend_if_has_space, prepare_for_write.
  destruct (extend_loop_data (length incoming_samples) 0 self incoming_samples)
    as [Hd Hs]; [lia|lia|].
  rewrite Nat.sub_0_r in Hd, Hs. cbn [drop] in Hd, Hs.
  split; assumption.
Qed.

(** X19. [extend_if_has_space] only appends: the bytes and shapes of the
    chunk afterwards are those before, followed by the serialized payloads
    and shapes of the samples it reports as added, in order; the
    configuration of the chunk is not changed. *)
Theorem extend_if_has_space_appends
    (self : chunk) (incoming_samples : list SampleValue) :
  let r := fst (extend_if_has_space self incoming_samples) in
  let done := take r.2 incoming_samples in
  data_bytes r.1.1
    = data_bytes self
        ++ concat ((fun s => (fst (serialize_sample (cfg self) s)).1) <$> done)
  /\ shapes r.1.1
    = shapes self ++ ((fun s => (fst (serialize_sample (cfg self) s)).2) <$> done)
  /\ cfg r.1.1 = cfg self.
Proof.
  intros r done.
  destruct (extend_if_has_space_written self incoming_samples) as [Hd Hs].
  subst r done. split_and!; [exact Hd|exact Hs|].
  unfold extend_if_has_space, prepare_for_write.
  destruct (extend_loop_spec (length incoming_samples) 0 self incoming_samples)
    as (Hc & _); [lia|lia|]. exact Hc.
Qed.

Lemma serialize_sample_shape_not_scalar (self : config) (s : SampleValue) :
  (fst (serialize_sample self s)).2 <> Some [].
Proof.
  rewrite <- serialize_sample_shape_normal.
  destruct ((fst (serialize_sample self s)).2) as [[|d sh]|]; discriminate.
Qed.

(** X22. No sample is stored with the empty shape: [serialize_sample]
    never returns the shape [()], so neither the shapes that
    [extend_if_has_space] appends to the chunk nor the samples it writes
    back into the list carry it. *)
Theorem extend_if_has_space_no_scalar_shape
    (self : chunk) (incoming_samples : list SampleValue) :
  let r := fst (extend_if_has_space self incoming_samples) in
  (forall s, (fst (serialize_sample (cfg self) s)).2 <> Some []) /\
  Forall (fun sh => sh <> Some []) (drop (length (shapes self)) (shapes r.1.1)) /\
  (forall j payload c sh, j <= r.2 -> j < length incoming_samples ->
     r.1.2 !! j = Some (VSample (SampleBuffer payload c sh)) -> sh <> Some []).
Proof.
  intros r. split_and!.
  - intros s. apply serialize_sample_shape_not_scalar.
  - destruct (extend_if_has_space_written self incoming_samples) as (_ & Hs).
    fold r in Hs. rewrite Hs, drop_app_length.
    apply Forall_fmap, Forall_forall. intros s _.
    apply serialize_sample_shape_not_scalar.
  - intros j payload c sh Hj Hlt Hl.
    destruct (extend_if_has_space_rewrites self incoming_samples) as (_ & Hw & _).
    fold r in Hw.
    destruct (lookup_lt_is_Some_2 incoming_samples j Hlt) as [s Hs].
    specialize (Hw j s Hs Hj). cbn zeta in Hw. rewrite Hw in Hl.
    injection Hl as _ _ <-. apply serialize_sample_shape_not_scalar.
Qed.

Lemma accepted_consistent (self : chunk) (payload : bytes) (sh : option shape) :
  headers_consistent self /\ ranges_in_buffer self ->
  headers_consistent (accepted self payload sh)
  /\ ranges_in_buffer (accepted self payload sh).
Proof.
  unfold headers_consistent, ranges_in_buffer, accepted,
    register_sample_to_headers. cbn.
  intros [[Hend Hlen] Hin]. rewrite Hend. split; [split|].
  - rewrite last_snoc. cbn. rewrite length_app. reflexivity.
  - rewrite !length_app. cbn. lia.
  - apply Forall_app. split.
    + eapply Forall_impl; [exact Hin|]. cbn. intros r Hr.
      rewrite length_app. lia.
    + constructor; [|constructor]. cbn. rewrite length_app. lia.
Qed.

Lemma accepted_extends (self0 self : chunk) (payload : bytes) (sh : option shape) :
  extends self0 self -> extends self0 (accepted self payload sh).
Proof.
  unfold extends, accepted, register_sample_to_headers. cbn.
  intros (Hc & Hb & Hs & Hd). split_and!; [exact Hc| | |];
    (etransitivity; [eassumption|apply prefix_app_r; reflexivity]).
Qed.

Lemma slice_prefix {A} (sb eb : nat) (l more : list A) :
  sb <= eb <= length l -> slice sb eb (l ++ more) = slice sb eb l.
Proof.
  intros H. unfold slice. rewrite drop_app_le by lia.
  rewrite take_app_le; [reflexivity|]. rewrite length_drop. lia.
Qed.

Lemma read_sample_extends (self later : chunk) (idx : nat) (cast : bool) :
  extends self later ->
  ranges_in_buffer self ->
  length (shapes_encoder self) = length (byte_positions_encoder self) ->
  idx < length (byte_positions_encoder self) ->
  read_sample later idx cast = read_sample self idx cast.
Proof.
  intros (Hc & [bp' Hb] & [se' Hs] & [d' Hd]) Hin Hlen Hidx.
  unfold read_sample. rewrite Hc, Hb, Hs, Hd.
  rewrite !lookup_app_l by lia.
  destruct (byte_positions_encoder self !! idx) as [[sb eb]|] eqn:Hr;
    [|reflexivity].
  unfold ranges_in_buffer in Hin. rewrite Forall_forall in Hin.
  assert (Hrange : sb <= eb <= length (data_bytes self)).
  { apply (Hin (sb, eb)). apply list_elem_of_lookup. eauto. }
  rewrite slice_prefix by exact Hrange. reflexivity.
Qed.

(** X20. On a chunk whose headers agree with its buffer,
    [extend_if_has_space] keeps them in agreement, and every sample that
    was in the chunk before reads as it did before, whatever is added. *)
Theorem extend_if_has_space_keeps_samples
    (self : chunk) (incoming_samples : list SampleValue) :
  headers_consistent self -> ranges_in_buffer self ->
  let r := fst (extend_if_has_space self incoming_samples) in
  headers_consistent r.1.1 /\ ranges_in_buffer r.1.1 /\
  forall idx cast, idx < length (byte_positions_encoder self) ->
    read_sample r.1.1 idx cast = read_sample self idx cast.
Proof.
  intros Hh Hr r. subst r. unfold extend_if_has_space, prepare_for_write.
  pose proof (extend_loop_keeps
                (fun c => headers_consistent c /\ ranges_in_buffer c)
                accepted_consistent (length incoming_samples) 0 self
                incoming_samples (conj Hh Hr)) as [Hh' Hr'].
  pose proof (extend_loop_keeps (extends self) (accepted_extends self)
                (length incoming_samples) 0 self incoming_samples) as Hext.
  split_and!; [exact Hh'|exact Hr'|].
  intros idx cast Hidx. apply read_sample_extends; try assumption.
  - apply Hext. unfold extends. split_and!; reflexivity.
  - apply Hh.
Qed.

(** X21. For a tensor that is neither text-like nor byte-compressed, the
    sample that did not fit is written back serialized, and a chunk of the
    same compression takes that payload as it is, with no call of the
    codec; when it fits, the new chunk holds exactly that payload after
    its own bytes. *)
Theorem plain_chunk_reuses_rejected_payload
    (self1 self2 : chunk) (incoming_samples : list SampleValue) :
  let r1 := fst (extend_if_has_space self1 incoming_samples) in
  r1.2 < length incoming_samples ->
  is_text_like (cfg self2) = false ->
  is_byte_compression (cfg self2) = false ->
  cfg_compression (cfg self2) = cfg_compression (cfg self1) ->
  exists s w rest,
    incoming_samples !! r1.2 = Some s /\
    drop r1.2 r1.1.2 = w :: rest /\
    let p := fst (serialize_sample (cfg self1) s) in
    serialize_sample (cfg self2) w = (p, []) /\
    (num_data_bytes self2 + length p.1 <= max_chunk_size (cfg self2) ->
     let r2 := fst (extend_if_has_space self2 [w]) in
     r2.2 = 1 /\ data_bytes r2.1.1 = data_bytes self2 ++ p.1).
Proof.
  intros r1 Hrej Ht Hb Hc.
  destruct (extend_if_has_space_rewrites self1 incoming_samples)
    as (Hlen & Hw & _). fold r1 in Hlen, Hw.
  destruct (lookup_lt_is_Some_2 incoming_samples r1.2 Hrej) as [s Hs].
  specialize (Hw r1.2 s Hs (le_n _)). cbn zeta in Hw.
  set (p := fst (serialize_sample (cfg self1) s)) in *.
  destruct (drop r1.2 r1.1.2) as [|w rest] eqn:Hdrop.
  { apply (f_equal length) in Hdrop. rewrite length_drop in Hdrop.
    cbn in Hdrop. lia. }
  assert (Hw0 : w = VSample (SampleBuffer p.1 (cfg_compression (cfg self2))
                               (normalize_shape p.2))).
  { pose proof (lookup_drop r1.1.2 r1.2 0) as Hd.
    rewrite Hdrop, Nat.add_0_r, Hw in Hd. cbn in Hd.
    subst p. rewrite serialize_sample_shape_normal, Hc. congruence. }
  assert (Hser : serialize_sample (cfg self2) w = (p, [])).
  { rewrite Hw0, (serialize_sample_memoized (cfg self2) p.1 p.2 Ht Hb).
    subst p. rewrite serialize_sample_shape_normal.
    destruct (fst (serialize_sample (cfg self1) s)). reflexivity. }
  exists s, w, rest. split; [exact Hs|]. split; [reflexivity|].
  cbn zeta. split; [exact Hser|].
  intros Hfits. fold p in Hfits |- *.
  unfold extend_if_has_space, prepare_for_write. cbn [length].
  rewrite (extend_loop_step 0 0 self2 [w] w eq_refl). rewrite Hser. cbn [fst snd].
  destruct (Nat.ltb_spec (max_chunk_size (cfg self2))
              (num_data_bytes self2 + length p.1)) as [Hfull|_]; [lia|].
  cbn. split; reflexivity.
Qed.

End MoreChunkFacts.

Import LinkedCreds.

(** ** Credentials of linked samples *)

(** X23. [check_each_sample] returns exactly when every sample is a
    linked sample (the empty list included) and raises [TypeError]
    otherwise, nothing else. *)
Theorem check_each_sample_accepts (samples : list sample) :
  (check_each_sample samples = Ok tt <-> Forall is_linked samples) /\
  (check_each_sample samples = Ok tt
   \/ check_each_sample samples = Raise TypeError).
Proof.
  induction samples as [|[p k|] samples [IH1 IH2]]; cbn.
  - split; [split; [constructor|reflexivity]|left; reflexivity].
  - split; [|exact IH2]. rewrite IH1. split.
    + intros H. constructor; [exact I|exact H].
    + intros H. inversion H. assumption.
  - split; [|right; reflexivity]. split; [discriminate|].
    intros H. inversion H as [|? ? Hs _]. destruct Hs.
Qed.

Section CredsFacts.
Context {encoder cache : Type}.
Variable new_encoder : encoder.
Variable register_samples : encoder -> N -> nat -> encoder.
Variable get_encoding : string -> res N.
Variable cache_getitem : cache -> string -> cache * bool.
Variable cache_setitem : cache -> string -> encoder -> cache * bool.
Variable get_hub_object : cache -> string -> cache * encoder.
Variable register_hub_object : cache -> string -> encoder -> cache.
Variable get_creds_encoder_key : string -> string -> string.

Lemma register_loop_spec (n : nat) :
  forall (i : nat) (samples : list sample) (enc : encoder) (codes : list N),
    i <= length samples ->
    Forall2 (encodes get_encoding) (take n (drop i samples)) codes ->
    register_loop register_samples get_encoding n i samples enc
      = (foldl (fun e code => register_samples e code 1) enc codes,
         if decide (n + i <= length samples) then Ok tt else Raise IndexError).
Proof.
  induction n as [|n IH]; intros i samples enc codes Hi Hcodes.
  - cbn in Hcodes. inversion Hcodes; subst. cbn.
    rewrite decide_True by lia. reflexivity.
  - cbn [register_loop]. destruct (samples !! i) as [s|] eqn:Hs.
    + rewrite (drop_S samples s i Hs) in Hcodes. cbn [take] in Hcodes.
      inversion Hcodes as [|? code ? codes' (p & k & -> & Hk) Hrest]; subst.
      rewrite Hk. pose proof (lookup_lt_Some _ _ _ Hs) as Hlt.
      rewrite (IH (S i) samples _ codes' ltac:(lia) Hrest). cbn [foldl].
      f_equal. destruct (decide (n + S i <= length samples));
        destruct (decide (S n + i <= length samples)); try reflexivity; lia.
    + apply lookup_ge_None in Hs.
      rewrite drop_ge in Hcodes by lia. cbn in Hcodes.
      inversion Hcodes; subst. cbn. rewrite decide_False by lia. reflexivity.
Qed.

(** X24. [register_new_creds] registers, in order, one row for the
    encoded credentials key of each of the first [num_samples_added]
    samples; with fewer samples than announced it raises [IndexError], but
    only after it has registered every sample there is. *)
Theorem register_new_creds_registers
    (num_samples_added : Z) (samples : list sample) (enc : encoder)
    (codes : list N) :
  Forall2 (encodes get_encoding) (take (Z.to_nat num_samples_added) samples) codes ->
  register_new_creds register_samples get_encoding num_samples_added samples enc
    = (foldl (fun e code => register_samples e code 1) enc codes,
       if decide (num_samples_added <= Z.of_nat (length samples))%Z
       then Ok tt else Raise IndexError).
Proof.
  intros Hcodes. unfold register_new_creds.
  rewrite (register_loop_spec _ 0 samples enc codes); [|lia|exact Hcodes].
  f_equal. destruct (decide (Z.to_nat num_samples_added + 0 <= length samples));
    destruct (decide (num_samples_added <= Z.of_nat (length samples))%Z);
    try reflexivity; lia.
Qed.

Lemma creds_encoder_exists_keeps (self : @engine encoder cache) :
  let r := creds_encoder_exists cache_getitem get_creds_encoder_key self in
  commit_id r.1 = commit_id self /\ key r.1 = key self.
Proof.
  unfold creds_encoder_exists. destruct (_ && _); [split; reflexivity|].
  destruct (cache_getitem _ _). split; reflexivity.
Qed.

(** With an encoder held for the current commit, neither accessor goes to
    the cache. *)
Lemma creds_encoder_hit (self : @engine encoder cache) (e : encoder) :
  _creds_encoder self = Some e ->
  _creds_encoder_commit_id self = Some (commit_id self) ->
  creds_encoder new_encoder cache_getitem cache_setitem get_hub_object
      register_hub_object get_creds_encoder_key self = (self, Some e)
  /\ creds_encoder_exists cache_getitem get_creds_encoder_key self = (self, true).
Proof.
  intros He Hc. unfold creds_encoder, creds_encoder_exists.
  rewrite He, Hc.
  rewrite (bool_decide_eq_false_2 (Some e = None)) by discriminate.
  rewrite !bool_decide_eq_true_2 by eauto. cbn. split; reflexivity.
Qed.

Lemma creds_encoder_result (self : @engine encoder cache) :
  exists st e,
    creds_encoder new_encoder cache_getitem cache_setitem get_hub_object
      register_hub_object get_creds_encoder_key self = (st, Some e) /\
    _creds_encoder st = Some e /\
    _creds_encoder_commit_id st = Some (commit_id st) /\
    commit_id st = commit_id self /\ key st = key self.
Proof.
  destruct (bool_decide (_creds_encoder self = None)
            || negb (bool_decide (_creds_encoder_commit_id self
                                  = Some (commit_id self)))) eqn:Hmiss.
  - unfold creds_encoder. rewrite Hmiss.
    pose proof (creds_encoder_exists_keeps self) as [Hcid Hkey].
    destruct (creds_encoder_exists cache_getitem get_creds_encoder_key self) as [self1 found].
    cbn [fst snd] in Hcid, Hkey.
    destruct found; cbn [negb].
    + destruct (get_hub_object _ _) as [c enc].
      eexists _, enc. split; [reflexivity|]. cbn.
      split_and!; try reflexivity; assumption.
    + eexists _, new_encoder. split; [reflexivity|]. cbn.
      split_and!; try reflexivity; assumption.
  - apply orb_false_iff in Hmiss. destruct Hmiss as [Hn Hc].
    apply bool_decide_eq_false in Hn. apply negb_false_iff in Hc.
    apply bool_decide_eq_true in Hc.
    destruct (_creds_encoder self) as [e|] eqn:He; [|congruence].
    exists self, e. split; [|split_and!; try reflexivity; assumption].
    apply (creds_encoder_hit self e He Hc).
Qed.

(** X25. [creds_encoder] always returns an encoder and leaves the engine
    holding it for the current commit, so that asking again returns the
    same encoder without another change, and [creds_encoder_exists] then
    answers yes without going to the cache. *)
Theorem creds_encoder_is_cached (self : @engine encoder cache) :
  let r := creds_encoder new_encoder cache_getitem cache_setitem get_hub_object
      register_hub_object get_creds_encoder_key self in
  is_Some r.2 /\
  _creds_encoder r.1 = r.2 /\
  _creds_encoder_commit_id r.1 = Some (commit_id self) /\
  commit_id r.1 = commit_id self /\ key r.1 = key self /\
  creds_encoder new_encoder cache_getitem cache_setitem get_hub_object
      register_hub_object get_creds_encoder_key r.1 = r /\
  creds_encoder_exists cache_getitem get_creds_encoder_key r.1 = (r.1, true).
Proof.
  intros r. subst r.
  destruct (creds_encoder_result self) as (st & e & -> & He & Hc & Hcid & Hkey).
  cbn [fst snd]. destruct (creds_encoder_hit st e He Hc) as [H1 H2].
  split_and!; try assumption; [eauto|congruence].
Qed.

End CredsFacts.

(* ================================================================== *)
(** * Further worked examples *)
(* ================================================================== *)

Import Examples.
Local Open Scope Z_scope.

Lemma str_hexlify_round_trip_witness :
  (forall s, ascii_decode (ascii_encode s) = Ok s) /\
  Hexlify._str_unhexlify ascii_decode
    (Hexlify._str_hexlify id ascii_encode "chunk") = Ok "chunk" /\
  length (Hexlify._str_hexlify id ascii_encode "chunk") = 10%nat.
Proof.
  assert (H : forall s, ascii_decode (ascii_encode s) = Ok s).
  { intros s. unfold ascii_decode, ascii_encode.
    rewrite string_of_list_byte_of_string. reflexivity. }
  exact (conj H (str_hexlify_round_trip string string id ascii_encode
                   ascii_decode "chunk" H)).
Defined.

Lemma transform_sample_after_pipeline_to_list_witness :
  pipeline_to_list 0 (Z.eqb 0) two_step_pipeline KwNone
    = ([two_of_one; pass_on], [0; 0]) /\
  transform_sample no_items (VDict "sample") [two_of_one; pass_on] [0; 0]
    = Returns [VDict "left"; VDict "right"] /\
  transform_sample no_items (VDict "sample") [two_of_one; pass_on] [0; 0]
    <> Fails KwargsIndexError.
Proof.
  split; [reflexivity|]. split; [reflexivity|].
  exact (transform_sample_after_pipeline_to_list no_items 0 (Z.eqb 0)
           (VDict "sample") two_step_pipeline KwNone).
Defined.

Lemma get_first_chunk_run_witness :
  get_first_chunk 32 corner_meta = ("bb", 1).
Proof.
  refine (get_first_chunk_run 32 "bb"
            [mk_entry ["bb"] 0 1 [1] "uncompressed"]
            [mk_entry ["cc"] 0 4 [4] "uncompressed";
             mk_entry ["bb"] 0 1 [1] "uncompressed"]
            (mk_entry ["bb"] 0 1 [1] "uncompressed") _ _ _).
  - repeat constructor.
  - reflexivity.
  - intros e [= <-]. unfold starts_with. cbn. discriminate.
Defined.


Lemma merge_chunks_keeps_samples_witness :
  sample_from_index_entry "uncompressed" no_decompress_array "images"
    corner_storage (mk_entry ["bb"] 0 1 [1] "uncompressed") uint8
    = Ok (mk_ndarray uint8 [1%nat] [x03]) /\
  exists storage' entries' ops,
    merge_chunks 32 16 "images" corner_storage corner_meta "bb" 1 "aa" 2
      = Ok (storage', entries', ops) /\
    (forall e, chunk_names e = ["bb"] -> 0 <= start_byte e -> 0 <= end_byte e ->
       sample_from_index_entry "uncompressed" no_decompress_array "images"
         storage' (repoint "aa" 2 e) uint8
       = sample_from_index_entry "uncompressed" no_decompress_array "images"
           corner_storage e uint8) /\
    (forall e,
       Forall (fun n => String.prefix "/" n = false /\ n <> "bb" /\ n <> "aa")
         (chunk_names e) ->
       sample_from_index_entry "uncompressed" no_decompress_array "images"
         storage' e uint8
       = sample_from_index_entry "uncompressed" no_decompress_array "images"
           corner_storage e uint8) /\
    (forall e, "bb" ∈ chunk_names e ->
       sample_from_index_entry "uncompressed" no_decompress_array "images"
         storage' e uint8 = Raise KeyError).
Proof.
  split; [vm_compute; reflexivity|].
  refine (merge_chunks_keeps_samples "uncompressed" no_decompress_array
            32 16 "images" corner_storage corner_meta "bb" "aa" 1
            [x03] [x01; x02] uint8 _ _ _ _ _ _ _ _ _).
  - reflexivity.
  - vm_compute. discriminate.
  - discriminate.
  - vm_compute. reflexivity.
  - vm_compute. reflexivity.
  - discriminate.
  - reflexivity.
  - reflexivity.
  - reflexivity.
Defined.

Lemma merge_tensor_metas_length_witness :
  merge_tensor_meta_workers "images" [worker_a; worker_b]
    (mk_meta None 0 [] []) = Ok (mk_meta (Some "uint8") 7 [2; 2] [2; 2]) /\
  tm_length (mk_meta (Some "uint8") 7 [2; 2] [2; 2]) = 0 + total [5; 2].
Proof.
  assert (H : merge_tensor_meta_workers "images" [worker_a; worker_b]
                (mk_meta None 0 [] [])
              = Ok (mk_meta (Some "uint8") 7 [2; 2] [2; 2]))
    by (vm_compute; reflexivity).
  split; [exact H|].
  refine (merge_tensor_metas_length "images" [worker_a; worker_b]
            [mk_meta (Some "uint8") 5 [2; 2] [2; 2];
             mk_meta (Some "uint8") 2 [2; 2] [2; 2]]
            (mk_meta None 0 [] []) _ _ _ H).
  - repeat constructor.
  - repeat constructor; discriminate.
Defined.



Lemma merge_all_chunk_engines_independent_witness :
  merge_all_chunk_engines last_count [worker_a; worker_b]
    [("images", destination)]
    = Ok [("images", Transform.mk_engine (mk_meta (Some "uint8") 7 [2; 2] [2; 2])
                       (Some [(10, 3); (11, 5); (12, 7)]))] /\
  exists ms es,
    merge_tensor_metas [worker_a; worker_b] [("images", destination)] = Ok ms /\
    merge_chunk_id_encoders last_count [worker_a; worker_b]
      [("images", destination)] = Ok es /\
    [("images", Transform.mk_engine (mk_meta (Some "uint8") 7 [2; 2] [2; 2])
                  (Some [(10, 3); (11, 5); (12, 7)]))]
      = zip_with (fun m e => (m.1, Transform.mk_engine (tensor_meta m.2)
                                     (chunk_id_encoder e.2))) ms es /\
    ["images"] = ["images"].
Proof.
  assert (H : merge_all_chunk_engines last_count [worker_a; worker_b]
                [("images", destination)]
              = Ok [("images",
                     Transform.mk_engine (mk_meta (Some "uint8") 7 [2; 2] [2; 2])
                       (Some [(10, 3); (11, 5); (12, 7)]))])
    by (vm_compute; reflexivity).
  split; [exact H|].
  exact (merge_all_chunk_engines_independent last_count [worker_a; worker_b]
           [("images", destination)] _ H).
Defined.

Lemma extend_if_has_space_keeps_samples_witness :
  fst (extend_if_has_space text_chunk_abcd [VText "hi"; VText "more"])
    = (mk_chunk (text_tensor 8) [x01; x61; x62; x63; x64; x01; x68; x69]
         [Some [1%nat]; Some [1%nat]] [(0, 5); (5, 8)]%nat
         [Some [1%nat]; Some [1%nat]],
       [VSample (SampleBuffer [x01; x68; x69] "stored" (Some [1%nat]));
        VSample (SampleBuffer [x01; x6d; x6f; x72; x65] "stored" (Some [1%nat]))],
       1%nat) /\
  headers_consistent
    (fst (extend_if_has_space text_chunk_abcd [VText "hi"; VText "more"])).1.1 /\
  ranges_in_buffer
    (fst (extend_if_has_space text_chunk_abcd [VText "hi"; VText "more"])).1.1 /\
  forall idx cast, (idx < 1)%nat ->
    read_sample
      (fst (extend_if_has_space text_chunk_abcd [VText "hi"; VText "more"])).1.1
      idx cast
    = read_sample text_chunk_abcd idx cast.
Proof.
  split; [vm_compute; reflexivity|].
  refine (@extend_if_has_space_keeps_samples Stored.collab
            text_chunk_abcd [VText "hi"; VText "more"] _ _).
  - split; reflexivity.
  - repeat constructor.
Defined.

Lemma plain_chunk_reuses_rejected_payload_witness :
  exists s w rest,
    [filled 4 x07] !! 0%nat = Some s /\
    drop 0 (fst (extend_if_has_space bytes_chunk_5 [filled 4 x07])).1.2
      = w :: rest /\
    serialize_sample (bytes_tensor 8) w
      = (fst (serialize_sample (bytes_tensor 8) s), []) /\
    ((0 + length (fst (serialize_sample (bytes_tensor 8) s)).1 <= 8)%nat ->
     (fst (extend_if_has_space (empty_chunk (bytes_tensor 8)) [w])).2 = 1%nat /\
     data_bytes (fst (extend_if_has_space (empty_chunk (bytes_tensor 8)) [w])).1.1
       = [] ++ (fst (serialize_sample (bytes_tensor 8) s)).1).
Proof.
  refine (@plain_chunk_reuses_rejected_payload Stored.collab
            bytes_chunk_5 (empty_chunk (bytes_tensor 8)) [filled 4 x07]
            _ _ _ _).
  - vm_compute. lia.
  - reflexivity.
  - reflexivity.
  - reflexivity.
Defined.

Lemma register_new_creds_registers_witness :
  register_new_creds codes_registered key_length 2 two_links []
    = ([3%N; 5%N], Ok tt) /\
  register_new_creds codes_registered key_length 3 two_links []
    = ([3%N; 5%N], Raise IndexError).
Proof.
  split.
  - refine (register_new_creds_registers codes_registered key_length 2
              two_links [] [3%N; 5%N] _).
    repeat constructor; do 2 eexists; split; reflexivity.
  - refine (register_new_creds_registers codes_registered key_length 3
              two_links [] [3%N; 5%N] _).
    repeat constructor; do 2 eexists; split; reflexivity.
Defined.

Lemma random_chunk_id_top_bits_witness :
  (Chunks.random_chunk_id (0xdeadbeef * 2 ^ 96) = 0xdeadbeef)%N /\
  (Chunks.random_chunk_id (0xdeadbeef * 2 ^ 96 + 12345) < 2 ^ 32)%N.
Proof.
  split.
  - apply (proj2 random_chunk_id_top_bits). vm_compute. reflexivity.
  - apply (proj1 random_chunk_id_top_bits).
Defined.

Lemma flatten_list_of_list_one_level_witness :
  flatten_list_of_list no_items
    [VList [VDict "a"]; VDict "b"; VTuple [VDict "c"; VList []]]
    = Returns [VDict "a"; VDict "b"; VDict "c"; VList []] /\
  flatten_list_of_list no_items [VDict "a"; VDict "b"]
    = Returns [VDict "a"; VDict "b"].
Proof.
  split.
  - refine (proj1 (flatten_list_of_list_one_level no_items
                     [VList [VDict "a"]; VDict "b";
                      VTuple [VDict "c"; VList []]]) _).
    repeat constructor.
  - refine (proj2 (flatten_list_of_list_one_level no_items
                     [VDict "a"; VDict "b"]) _).
    repeat constructor.
Defined.

Lemma transform_sample_output_witness :
  (@all_dicts string Z [VDict "left"; VDict "right"]
   \/ exists items : list (value string Z),
        [VDict "left"; VDict "right"] = [VTuple items] /\ all_dicts items) /\
  transform_sample no_items (VDict "sample") [one_tuple] [0]
    = Returns [VTuple [VDict "only"]].
Proof.
  split.
  - refine (proj1 (transform_sample_output no_items (VDict "sample")
                     [two_of_one; pass_on] [0; 0]) _ _ _).
    + discriminate.
    + reflexivity.
  - refine (proj2 (transform_sample_output no_items (VDict "sample") [] [])
              one_tuple 0 [VDict "only"] _ _).
    + reflexivity.
    + repeat constructor.
Defined.

Lemma pipeline_to_list_pads_witness :
  (pipeline_to_list 0 (Z.eqb 0) two_step_pipeline (KwDict 7)).2 !! 0%nat
    = Some 7 /\
  (pipeline_to_list 0 (Z.eqb 0) two_step_pipeline (KwDict 7)).2 !! 1%nat
    = Some 0 /\
  (pipeline_to_list 0 (Z.eqb 0) two_step_pipeline (KwSeq [1; 2; 3])).2 !! 1%nat
    = Some 2.
Proof.
  split_and!.
  - refine (proj2 (proj2 (proj2 (proj2
              (pipeline_to_list_pads 0 (Z.eqb 0) two_step_pipeline (KwDict 7)))))
              7 0%nat eq_refl _).
    cbn. lia.
  - refine (proj2 (proj2 (proj2 (proj2
              (pipeline_to_list_pads 0 (Z.eqb 0) two_step_pipeline (KwDict 7)))))
              7 1%nat eq_refl _).
    cbn. lia.
  - refine (proj1 (proj2 (proj2
              (pipeline_to_list_pads 0 (Z.eqb 0) two_step_pipeline
                 (KwSeq [1; 2; 3]))))
              [1; 2; 3] 1%nat eq_refl _).
    cbn. lia.
Defined.

Lemma sample_from_index_entry_bytes_witness :
  sample_from_index_entry "uncompressed" no_decompress_array "images"
    corner_storage (mk_entry ["aa"; "cc"] 1 2 [3] "uncompressed") uint8
    = decode_entry "uncompressed" no_decompress_array
        (mk_entry ["aa"; "cc"] 1 2 [3] "uncompressed") uint8 [x02; x04; x05] /\
  decode_entry "uncompressed" no_decompress_array
    (mk_entry ["aa"; "cc"] 1 2 [3] "uncompressed") uint8 [x02; x04; x05]
    = Ok (mk_ndarray uint8 [3%nat] [x02; x04; x05]) /\
  sample_from_index_entry "uncompressed" no_decompress_array "images"
    corner_storage (mk_entry ["aa"; "dd"] 1 2 [3] "uncompressed") uint8
    = Raise KeyError.
Proof.
  split_and!.
  - refine (proj1 (proj2 (sample_from_index_entry_bytes "uncompressed"
              no_decompress_array "images" corner_storage
              (mk_entry ["aa"; "cc"] 1 2 [3] "uncompressed") uint8))
              [[x01; x02]; [x04; x05; x06; x07]] _ _).
    + discriminate.
    + repeat constructor.
  - vm_compute. reflexivity.
  - refine (proj2 (proj2 (sample_from_index_entry_bytes "uncompressed"
              no_decompress_array "images" corner_storage
              (mk_entry ["aa"; "dd"] 1 2 [3] "uncompressed") uint8)) _).
    apply Exists_cons_tl, Exists_cons_hd. vm_compute. reflexivity.
Defined.

Lemma merge_tensor_meta_outcome_witness :
  merge_tensor_meta (mk_meta (Some "uint8") 5 [2; 2] [2; 2])
    (mk_meta (Some "int32") 1 [3; 3] [3; 3]) = Raise AssertionError /\
  exists tm',
    merge_tensor_meta (mk_meta (Some "uint8") 5 [2; 2] [2; 2])
      (mk_meta (Some "uint8") 1 [3; 3] [3; 3]) = Ok tm'.
Proof.
  split.
  - refine (proj1 (merge_tensor_meta_outcome
                     (mk_meta (Some "uint8") 5 [2; 2] [2; 2])
                     (mk_meta (Some "int32") 1 [3; 3] [3; 3])) _).
    cbn. split; [split_and!; discriminate|]. intros [H _]. discriminate.
  - refine (proj2 (merge_tensor_meta_outcome
                     (mk_meta (Some "uint8") 5 [2; 2] [2; 2])
                     (mk_meta (Some "uint8") 1 [3; 3] [3; 3])) _).
    right. cbn. split_and!; reflexivity.
Defined.

Lemma extend_if_has_space_no_scalar_shape_witness :
  (fst (serialize_sample (bytes_tensor 8) (scalar x07))).2 = Some [1%nat] /\
  (fst (serialize_sample (bytes_tensor 8) (scalar x07))).2 <> Some [] /\
  Forall (fun sh : option shape => sh <> Some [])
    (drop 0 (shapes (fst (extend_if_has_space (empty_chunk (bytes_tensor 8))
                            [scalar x07])).1.1)).
Proof.
  split; [vm_compute; reflexivity|].
  pose proof (@extend_if_has_space_no_scalar_shape Stored.collab
                (empty_chunk (bytes_tensor 8)) [scalar x07]) as H.
  cbn zeta in H. destruct H as (H1 & H2 & _).
  split; [apply H1|exact H2].
Defined.
